(** * dep-verify: the verification engine of [lib/index.js]

    A shallow embedding of the engine that compares the tarball a package
    registry serves with the release archive of the package's GitHub
    repository, and the properties of it that the specification states.

    The engine is asynchronous JavaScript.  Its effects are modelled by a
    small monad over the three module-level variables of the file
    ([REGISTRY_BASE_URL], [TEMP_DIR], [logger]) that also records, in order,
    every call to the logger and every HTTP request that is issued, and in
    which a computation returns, throws, or halts (it never settles, or the
    process dies).  The network, the file system and the built-ins whose
    answer the engine takes as it comes are a record of oracles, [World]. *)

From Stdlib Require Import String Ascii List Bool Arith NArith Lia DecimalString.
Import ListNotations.
Open Scope string_scope.
Set Warnings "-register-all,-notation-for-abbreviation".

(** ** Strings, as the JavaScript built-ins used by the engine treat them *)

Module Js.

(** [s.slice(n)] *)
Fixpoint drop (n : nat) (s : string) : string :=
  match n, s with
  | O, _ => s
  | S _, EmptyString => EmptyString
  | S n', String _ s' => drop n' s'
  end.

(** [hay.includes(needle)] *)
Definition includes (needle hay : string) : bool :=
  match index 0 needle hay with
  | Some _ => true
  | None => false
  end.

(** [s.replace(pat, repl)] with a string pattern: only the first occurrence
    is replaced ([repl] without dollar patterns; the engine passes ['']). *)
Fixpoint replace (pat repl s : string) : string :=
  if prefix pat s then repl ++ drop (String.length pat) s
  else match s with
       | EmptyString => EmptyString
       | String c s' => String c (replace pat repl s')
       end.

(** [/suf$/.test(s)] for a literal suffix: some tail of [s] is [suf]. *)
Fixpoint ends_with (suf s : string) : bool :=
  String.eqb s suf
  || match s with
     | EmptyString => false
     | String _ s' => ends_with suf s'
     end.

(** [s.split(c)] for a one-character separator. *)
Fixpoint split (c : ascii) (s : string) : list string :=
  match s with
  | EmptyString => [EmptyString]
  | String a s' =>
      match split c s' with
      | [] => [String a EmptyString]
      | h :: t => if Ascii.eqb a c then EmptyString :: h :: t
                  else String a h :: t
      end
  end.

(** A template literal prints an absent value as the text [undefined]. *)
Definition template (v : option string) : string :=
  match v with
  | Some s => s
  | None => "undefined"
  end.

(** Truthiness of a value that is a string or undefined. *)
Definition truthy (v : option string) : bool :=
  match v with
  | Some s => negb (s =? "")
  | None => false
  end.

(** [String(n)] for a non-negative integer. *)
Definition String_of_N (n : N) : string := NilZero.string_of_uint (N.to_uint n).
Definition String_of_nat (n : nat) : string := NilZero.string_of_uint (Nat.to_uint n).

(** [s] holds the character [c]. *)
Fixpoint has_char (c : ascii) (s : string) : bool :=
  match s with
  | EmptyString => false
  | String a s' => Ascii.eqb a c || has_char c s'
  end.

(** [s[0]] *)
Definition first_char (s : string) : option ascii :=
  match s with
  | EmptyString => None
  | String c _ => Some c
  end.

End Js.

(** ** Node's [path] module, on POSIX

    A built-in, not code of the engine: [path.normalize], [path.join] and
    [path.resolve] as Node defines them on POSIX, and [path.basename] and
    [path.extname] for paths without a trailing slash, which is what the
    engine passes to them. *)

Module NodePath.

Definition last_segment (p : string) : string :=
  List.last (Js.split "/" p) EmptyString.

(** The suffix of [s] that starts at its last dot, if it has one. *)
Fixpoint from_last_dot (s : string) : option string :=
  match s with
  | EmptyString => None
  | String c s' =>
      match from_last_dot s' with
      | Some e => Some e
      | None => if Ascii.eqb c "." then Some s else None
      end
  end.

(** [path.extname(p)]: a dot that starts the base name opens no extension,
    and [..] has none. *)
Definition extname (p : string) : string :=
  if String.eqb (last_segment p) ".." then EmptyString
  else
    match last_segment p with
    | EmptyString => EmptyString
    | String _ rest =>
        match from_last_dot rest with
        | Some e => e
        | None => EmptyString
        end
    end.

(** [path.basename(p, ext)] *)
Definition basename (p ext : string) : string :=
  let b := last_segment p in
  if negb (ext =? "") && Js.ends_with ext b && (String.length ext <? String.length b)%nat
  then substring 0 (String.length b - String.length ext) b
  else b.

(** The segments of a path once empty segments and [.] are dropped and
    [..] has taken back the segment before it; [stack] holds the segments
    kept so far, the last one first. *)
Fixpoint normal_segments (absolute : bool) (stack segments : list string)
  : list string :=
  match segments with
  | [] => rev stack
  | s :: rest =>
      if String.eqb s "" || String.eqb s "." then
        normal_segments absolute stack rest
      else if String.eqb s ".." then
        match stack with
        | top :: below =>
            if String.eqb top ".."
            then normal_segments absolute (s :: stack) rest
            else normal_segments absolute below rest
        | [] =>
            if absolute then normal_segments absolute [] rest
            else normal_segments absolute [s] rest
        end
      else normal_segments absolute (s :: stack) rest
  end.

(** [path.normalize(p)] *)
Definition normalize (p : string) : string :=
  if String.eqb p "" then "."
  else
    let absolute := prefix "/" p in
    let body := String.concat "/" (normal_segments absolute [] (Js.split "/" p)) in
    let body := if String.eqb body "" && negb absolute then "." else body in
    let body := if negb (String.eqb body "") && Js.ends_with "/" p
                then body ++ "/" else body in
    if absolute then "/" ++ body else body.

(** [path.join(a, b)]: an empty argument is left out. *)
Definition join (a b : string) : string :=
  if String.eqb a "" then normalize b
  else if String.eqb b "" then normalize a
  else normalize (a ++ "/" ++ b).

(** The arguments of [path.resolve] put together from the right, up to the
    first that is absolute. *)
Fixpoint resolved (args : list string) : string :=
  match args with
  | [] => EmptyString
  | a :: rest =>
      let r := resolved rest in
      if prefix "/" r then r
      else if String.eqb a "" then r
      else a ++ "/" ++ r
  end.

(** [path.resolve(...args)], the working directory being [cwd]: an absolute
    path, normalised, without a trailing slash. *)
Definition resolve (cwd : string) (args : list string) : string :=
  let r := resolved args in
  "/" ++ String.concat "/"
           (normal_segments true []
              (Js.split "/" (if prefix "/" r then r else cwd ++ "/" ++ r))).

(** A name as a directory lists it: not empty, not [.] or [..], without a
    slash. *)
Definition plain (name : string) : bool :=
  negb (String.eqb name "") && negb (String.eqb name ".")
  && negb (String.eqb name "..") && negb (Js.has_char "/" name).

(** An absolute path that is normalised and has no trailing slash: a slash,
    then plain segments with a slash between them. *)
Definition clean (p : string) : bool :=
  match Js.split "/" p with
  | EmptyString :: segment :: segments => forallb plain (segment :: segments)
  | _ => false
  end.

End NodePath.

(** ** Values of the engine *)

(** What a rejected promise or a [throw] carries: an [Error], a [TypeError],
    or the array of rejection reasons that [Promise.any] rejects with.  The
    message of a [TypeError] that a built-in throws is the one of the
    Node version at hand; nothing below depends on its wording. *)
Inductive Exn : Type :=
| Error (message : string)
| TypeError (message : string)
| Reasons (items : list Exn).

(** [e.message]; an array has no such property. *)
Definition message_of (e : Exn) : option string :=
  match e with
  | Error m => Some m
  | TypeError m => Some m
  | Reasons _ => None
  end.

(** An entry of [lockfile.dependencies]. *)
Record PackageObj : Type := { version : option string }.

(** The lock file; [dependencies] holds what [Object.entries] enumerates. *)
Record Lockfile : Type := { dependencies : option (list (string * PackageObj)) }.

(** The registry document of a package. *)
Record Repository : Type := { url : option string }.
Record DistTags : Type := { latest : option string }.
Record PackageInfo : Type :=
  { repository : option Repository;
    dist_tags : option DistTags }.

(** An extracted directory tree. *)
Inductive Node : Type :=
| File (name : string)
| Dir (name : string) (children : list Node).

(** What [request.get(url)] ends with: an [error] event, a response, or
    nothing at all (the source sets no time limit). *)
Inductive HttpReply : Type :=
| NetworkError (message : string)
| Response (statusCode : N)
| NoReply.

(** Which HTTP client issues a request. *)
Inductive Client : Type := ViaRp | ViaRequest | ViaRequestGet.

Inductive Level : Type := LDebug | LInfo | LWarn | LError.

(** The messages of the engine, one constructor per logger call of the
    source (the line of the call is given with each). *)
Inductive Message : Type :=
| StartingChecks (key : string)                          (* line 37 *)
| Decompressing (dest : string)                          (* line 50 *)
| MissingInGitHub (mapKey key : string)                  (* line 68 *)
| DifferentHashes (key mapKey ver : string)              (* line 73 *)
| AllHashesMatched (key : string)                        (* line 79 *)
| FoundDifferent (count : nat) (key : string)            (* line 82 *)
| ErrorVerifying (key : string) (msg : option string)    (* line 86 *)
| TarballNotDownloaded (key : string)                    (* line 91 *)
| ErrorProcessing (key : string) (msg : string)          (* lines 93, 96 *)
| FinishedNoDifferences                                  (* line 103 *)
| FinishedWithDifferences (text : string)                (* line 106 *)
| DownloadingFile (url : string)                         (* line 168 *)
| DownloadError (url msg : string)                       (* line 171 *)
| FinishedDownloading (url : string).                    (* line 184 *)

(** What a run does that can be observed, in order. *)
Inductive Event : Type :=
| Log (level : Level) (msg : Message)
| Get (client : Client) (url : string).

(** The network, the file system after extraction, the scheduler, and the
    built-ins and libraries whose answer the engine takes as it comes. *)
Record World : Type :=
  { (** [process.cwd()], which [path.resolve] starts from *)
    cwd : string;
    (** [url.parse(u).pathname], of Node's legacy parser; [None] is [null] *)
    url_pathname : string -> option string;
    (** the error that [pino({level})] throws, if it refuses the level *)
    pino : string -> option Exn;
    (** the [error] event of the stream of [fs.createWriteStream(path)],
        if the file cannot be opened or written *)
    write_stream_error : string -> option Exn;
    (** [require(path)] of a lock file *)
    require_lockfile : string -> Exn + Lockfile;
    (** the promise of [rp({uri, json: true})] *)
    rp : string -> Exn + PackageInfo;
    (** the stream of [request.get(url)] *)
    request_get : string -> HttpReply;
    (** of the two downloads of a race, whether the first settles first *)
    first_settles_first : string -> string -> bool;
    (** [targz.decompress({src, dest})]: the error, if it fails *)
    targz_decompress : string -> string -> option Exn;
    (** the tree below a directory, or the error of walking it *)
    tree : string -> Exn + list Node;
    (** [sha1File(file)] *)
    sha1File : string -> Exn + string;
    (** [fs.access(filePath, fs.F_OK)] succeeds *)
    fs_access : string -> bool }.

(** The module-level variables (lines 14 to 16). *)
Record Module : Type :=
  { REGISTRY_BASE_URL : string;
    TEMP_DIR : string;
    logger : string }.

(** The state of a freshly loaded module; [TEMP_DIR] and [logger] are
    assigned by [verify] before they are read. *)
Definition loaded : Module :=
  {| REGISTRY_BASE_URL := "https://registry.npmjs.org";
     TEMP_DIR := "";
     logger := "" |}.

(** ** The monad of the engine *)

(** How a computation can end without returning or throwing: a promise it
    awaits never settles, or an [error] event without a listener ends the
    process. *)
Inductive Halt : Type :=
| Hangs
| Dies (e : Exn).

Inductive Result (A : Type) : Type :=
| Returned (a : A)
| Thrown (e : Exn)
| Halted (h : Halt).
Arguments Returned {A} a.
Arguments Thrown {A} e.
Arguments Halted {A} h.

Definition M (A : Type) : Type := Module -> Result A * Module * list Event.

Definition ret {A} (a : A) : M A := fun m => (Returned a, m, []).

Definition throw {A} (e : Exn) : M A := fun m => (Thrown e, m, []).

Definition halt {A} (h : Halt) : M A := fun m => (Halted h, m, []).

Definition bind {A B} (x : M A) (f : A -> M B) : M B :=
  fun m =>
    match x m with
    | (Returned a, m1, t1) =>
        match f a m1 with
        | (r, m2, t2) => (r, m2, (t1 ++ t2)%list)
        end
    | (Thrown e, m1, t1) => (Thrown e, m1, t1)
    | (Halted h, m1, t1) => (Halted h, m1, t1)
    end.

(** [try { x } catch (e) { h e }] *)
Definition try_catch {A} (x : M A) (h : Exn -> M A) : M A :=
  fun m =>
    match x m with
    | (Returned a, m1, t1) => (Returned a, m1, t1)
    | (Thrown e, m1, t1) =>
        match h e m1 with
        | (r, m2, t2) => (r, m2, (t1 ++ t2)%list)
        end
    | (Halted s, m1, t1) => (Halted s, m1, t1)
    end.

Definition get_module : M Module := fun m => (Returned m, m, []).
Definition emit (e : Event) : M unit := fun m => (Returned tt, m, [e]).

(** A settled promise, awaited. *)
Definition settle {A} (r : Exn + A) : M A :=
  match r with
  | inl e => throw e
  | inr a => ret a
  end.

(** A promise of an operation that has been started: what is still to
    happen when it settles. *)
Definition Promise (A : Type) : Type := M A.

(** [await p] *)
Definition await {A} (p : Promise A) : M A := p.

Declare Scope engine_scope.
Delimit Scope engine_scope with engine.
Notation "x <- c ;; k" := (bind c (fun x => k))
  (at level 61, c at next level, right associativity) : engine_scope.
Notation "c ;; k" := (bind c (fun _ => k))
  (at level 61, right associativity) : engine_scope.
Open Scope engine_scope.

Definition result_of {A} (r : Result A * Module * list Event) : Result A :=
  fst (fst r).
Definition module_of {A} (r : Result A * Module * list Event) : Module :=
  snd (fst r).
Definition events_of {A} (r : Result A * Module * list Event) : list Event :=
  snd r.

(** ** The engine *)

(** A JavaScript object used as a map, as [Object.entries] enumerates it: in
    insertion order, an assignment to a key that is present keeping its
    place.  (Array-index keys would come first; the keys of a file map end
    in [.js] and are none.) *)
Fixpoint obj_set (k : string) (v : bool) (o : list (string * bool))
  : list (string * bool) :=
  match o with
  | [] => [(k, v)]
  | (k', v') :: o' =>
      if String.eqb k' k then (k', v) :: o' else (k', v') :: obj_set k v o'
  end.

(** The walk of [find.file(regex, root, cb)], of the package find, below one
    entry of a directory: the paths of the files whose path the pattern
    [/suffix$/] matches, each made with [path.join] from the directory and
    the name; the entries of a directory are visited one after the other,
    in the order in which the directory lists them, a directory being
    walked before the entry after it is looked at. *)
Fixpoint walk (suffix dir : string) (n : Node) : list string :=
  match n with
  | File name =>
      let p := NodePath.join dir name in
      if Js.ends_with suffix p then [p] else []
  | Dir name children =>
      flat_map (walk suffix (NodePath.join dir name)) children
  end.

Definition find_file (suffix root : string) (children : list Node) : list string :=
  flat_map (walk suffix root) children.

(** What [Promise.any] makes of the outcomes of its two promises, in the
    order of the array. *)
Definition any_of {A} (first_settles_first : bool) (r1 r2 : Result A) : Result A :=
  match r1, r2 with
  | Halted (Dies e), _ => Halted (Dies e)
  | _, Halted (Dies e) => Halted (Dies e)
  | Returned a1, Returned a2 => Returned (if first_settles_first then a1 else a2)
  | Returned a1, _ => Returned a1
  | _, Returned a2 => Returned a2
  | Thrown e1, Thrown e2 => Thrown (Reasons [e1; e2])
  | _, _ => Halted Hangs
  end.

(** [Promise.any([p1, p2])] of the package promise-any, awaited: fulfilled
    by the first promise to be fulfilled, rejected with the array of the
    two reasons, in the order of the array, when both are rejected, and
    never settled otherwise.  The two operations have been started; they
    settle in the order that [first_settles_first] gives, and what the one
    that loses does when it settles is recorded here, with the race.  When
    the process dies nothing follows. *)
Definition Promise_any {A} (p1 p2 : Promise A) (first_settles_first : bool) : M A :=
  fun m =>
    match (if first_settles_first then p1 else p2) m with
    | (Halted (Dies e), m1, t1) => (Halted (Dies e), m1, t1)
    | (earlier, m1, t1) =>
        match (if first_settles_first then p2 else p1) m1 with
        | (Halted (Dies e), m2, t2) => (Halted (Dies e), m2, (t1 ++ t2)%list)
        | (later, m2, t2) =>
            (if first_settles_first
             then any_of first_settles_first earlier later
             else any_of first_settles_first later earlier,
             m2, (t1 ++ t2)%list)
        end
    end.

(** What [await request({json: true, url, method: 'GET'})] evaluates to.
    The client [request], called without a callback, returns its Request
    stream, which has no [then]; [await] hands back as it is a value that
    is not a thenable.  (The promise of a parsed body is what [rp] gives.) *)
Inductive Awaited : Type :=
| RequestStream (url : string)
| ParsedBody (body : PackageInfo).

(** [response['dist-tags']] *)
Definition dist_tags_of (response : Awaited) : option DistTags :=
  match response with
  | RequestStream _ => None
  | ParsedBody body => dist_tags body
  end.

Record NpmDownload : Type :=
  { npm_path : string; npm_version : option string }.

Record GitHubDownload : Type :=
  { gh_path : string; repo : string; user : option string }.

(** [!packageInfo.repository || !packageInfo.repository.url] is false. *)
Definition repository_url (packageInfo : PackageInfo) : option string :=
  match repository packageInfo with
  | Some r => if Js.truthy (url r) then url r else None
  | None => None
  end.

Definition dquote : string := String (ascii_of_nat 34) EmptyString.
Definition newline : string := String (ascii_of_nat 10) EmptyString.

(** The text of one package in the closing report (line 105). *)
Definition report_line (entry : string * nat) : string :=
  "package " ++ dquote ++ fst entry ++ dquote ++ " had "
  ++ Js.String_of_nat (snd entry) ++ " differences" ++ newline.

Section Engine.

Variable w : World.

Definition logger_debug (msg : Message) : M unit := emit (Log LDebug msg).
Definition logger_info (msg : Message) : M unit := emit (Log LInfo msg).
Definition logger_warn (msg : Message) : M unit := emit (Log LWarn msg).
Definition logger_error (msg : Message) : M unit := emit (Log LError msg).

(** Lines 110 to 115. *)
Definition getPackageInfoFromRegistry (dependency : string) : M PackageInfo :=
  m <- get_module ;;
  let uri := REGISTRY_BASE_URL m ++ "/" ++ dependency in
  emit (Get ViaRp uri) ;;
  settle (rp w uri).

(** The listeners of lines 170 to 186, and the stream of line 164: how the
    promise of [downloadFile] settles.  The write stream has no [error]
    listener, so an error of it ends the process.  A response with an
    informational status (below 200) is not handed to the [response]
    listener, and nothing follows it. *)
Definition downloadFile_settles (url destinationPath : string) : Promise string :=
  match write_stream_error w destinationPath with
  | Some e => halt (Dies e)
  | None =>
      match request_get w url with
      | NetworkError msg =>
          logger_error (DownloadError url msg) ;;
          throw (Error msg)
      | NoReply => halt Hangs
      | Response statusCode =>
          if (statusCode <? 200)%N then halt Hangs
          else
            match Js.first_char (Js.String_of_N statusCode) with
            | Some "2"%char =>
                logger_debug (FinishedDownloading url) ;;
                ret destinationPath
            | _ => throw (Error (Js.String_of_N statusCode))
            end
      end
  end.

(** Lines 162 to 188: the call opens the stream, logs, sends the request
    and gives back a promise. *)
Definition downloadFile (url fileName : string) : M (Promise string) :=
  m <- get_module ;;
  let destinationPath := NodePath.resolve (cwd w) [TEMP_DIR m; fileName] in
  logger_debug (DownloadingFile url) ;;
  emit (Get ViaRequestGet url) ;;
  ret (downloadFile_settles url destinationPath).

(** Lines 152 to 160. *)
Definition getPackageLatestVersion (name : string) : M (option string) :=
  m <- get_module ;;
  let url := REGISTRY_BASE_URL m ++ "/" ++ name in
  emit (Get ViaRequest url) ;;
  let response := RequestStream url in
  match dist_tags_of response with
  | Some tags => ret (latest tags)
  | None => throw (TypeError "Cannot read property 'latest' of undefined")
  end.

(** Lines 117 to 127.  The argument object is fresh at the call, so the
    assignment to its [version] is seen only here. *)
Definition downloadCompressedFileFromNpm (name : string) (version : option string)
  : M NpmDownload :=
  version <- (if negb (Js.truthy version) then getPackageLatestVersion name
              else ret version) ;;
  m <- get_module ;;
  let url := REGISTRY_BASE_URL m ++ "/" ++ name ++ "/-/" ++ name ++ "-"
             ++ Js.template version ++ ".tgz" in
  promise <- downloadFile url (name ++ "-" ++ Js.template version ++ "-npm.tgz") ;;
  path <- await promise ;;
  ret {| npm_path := path; npm_version := version |}.

(** Lines 129 to 137. *)
Definition findFiles (suffix root : string) : M (list string) :=
  nodes <- settle (tree w root) ;;
  ret (find_file suffix root nodes).

(** Lines 139 to 146. *)
Definition getFileMap (path : string) : M (list (string * bool)) :=
  files <- findFiles ".js" path ;;
  ret (fold_left (fun result file => obj_set (Js.replace path "" file) true result)
         files []).

(** Lines 148 to 150. *)
Definition getHash (file : string) : M string := settle (sha1File w file).

(** Lines 208 to 217. *)
Definition fileExists (filePath : string) : M bool := ret (fs_access w filePath).

(** [decompress({src, dest})], line 13. *)
Definition decompress (src dest : string) : M unit :=
  match targz_decompress w src dest with
  | Some e => throw e
  | None => ret tt
  end.

(** The two candidate URLs of line 198 and line 199. *)
Definition tarURL (githubUser : option string) (githubRepoName : string)
    (version : option string) : string :=
  "https://github.com/" ++ Js.template githubUser ++ "/" ++ githubRepoName
  ++ "/archive/v" ++ Js.template version ++ ".tar.gz".

Definition alternativeURL (githubUser : option string) (githubRepoName : string)
    (version : option string) : string :=
  "https://github.com/" ++ Js.template githubUser ++ "/" ++ githubRepoName
  ++ "/archive/" ++ Js.template version ++ ".tar.gz".

(** Lines 190 to 206. *)
Definition downloadCompressedFileFromGitHub (name : string)
    (version : option string) (packageInfo : PackageInfo) : M GitHubDownload :=
  match repository_url packageInfo with
  | None => throw (Error "package info doesn't contains repository info")
  | Some u =>
      match url_pathname w u with
      | None => throw (TypeError "Cannot read property 'split' of null")
      | Some pathname =>
          let parts := Js.split "/" pathname in
          let githubUser := nth_error parts 1 in
          match nth_error parts 2 with
          | None => throw (TypeError "The path argument must be of type string")
          | Some githubRepo =>
              let githubRepoName :=
                NodePath.basename githubRepo (NodePath.extname githubRepo) in
              let tarURL := tarURL githubUser githubRepoName version in
              let alternativeURL := alternativeURL githubUser githubRepoName version in
              promise1 <- downloadFile tarURL
                            (name ++ "-" ++ Js.template version ++ "-gh.tgz") ;;
              promise2 <- downloadFile alternativeURL
                            (name ++ "-" ++ Js.template version ++ "-gh.tar.gz") ;;
              path <- Promise_any promise1 promise2
                        (first_settles_first w tarURL alternativeURL) ;;
              ret {| gh_path := path; repo := githubRepoName; user := githubUser |}
          end
      end
  end.

(** Assignments to the module-level variables. *)
Definition set_REGISTRY_BASE_URL (v : string) : M unit :=
  fun m => (Returned tt,
            {| REGISTRY_BASE_URL := v; TEMP_DIR := TEMP_DIR m; logger := logger m |},
            []).

Definition set_TEMP_DIR (v : string) : M unit :=
  fun m => (Returned tt,
            {| REGISTRY_BASE_URL := REGISTRY_BASE_URL m; TEMP_DIR := v;
               logger := logger m |},
            []).

Definition set_logger (v : string) : M unit :=
  fun m => (Returned tt,
            {| REGISTRY_BASE_URL := REGISTRY_BASE_URL m; TEMP_DIR := TEMP_DIR m;
               logger := v |},
            []).

(** The handler of the outer [catch], lines 89 to 97. *)
Definition on_dependency_error (key : string) (e : Exn) : M unit :=
  match e with
  | Reasons items =>
      match items with
      | [] => throw (TypeError "Cannot read property 'message' of undefined")
      | e0 :: _ =>
          if Js.truthy (message_of e0)
             && Js.includes "404" (Js.template (message_of e0))
          then logger_error (TarballNotDownloaded key)
          else logger_error (ErrorProcessing key (Js.template (message_of e)))
      end
  | _ => logger_error (ErrorProcessing key (Js.template (message_of e)))
  end.

Section Dependency.

Variable key : string.
Variable packageObj : PackageObj.

Section Comparison.

Variables npmDecompressedDestination githubDecompressedDestination : string.
Variable ghResponse : GitHubDownload.

Definition npmFilePath (mapKey : string) : string :=
  npmDecompressedDestination ++ "/package" ++ mapKey.

(** Line 64. *)
Definition ghFilePath (mapKey : string) : string :=
  githubDecompressedDestination ++ "/" ++ repo ghResponse ++ "-"
  ++ Js.template (version packageObj) ++ mapKey.

(** The loop of lines 60 to 76 over [Object.entries(fileMapFromNPM)], with
    the array [differentFiles] it pushes to. *)
Fixpoint compare_entries (entries : list (string * bool))
    (differentFiles : list string) : M (list string) :=
  match entries with
  | [] => ret differentFiles
  | (mapKey, value) :: rest =>
      hashNpm <- getHash (npmFilePath mapKey) ;;
      ghFileExists <- fileExists (ghFilePath mapKey) ;;
      if negb ghFileExists then
        logger_warn (MissingInGitHub mapKey key) ;;
        compare_entries rest differentFiles
      else
        hashGH <- getHash (ghFilePath mapKey) ;;
        if negb (String.eqb hashNpm hashGH) then
          logger_error
            (DifferentHashes key mapKey (Js.template (version packageObj))) ;;
          compare_entries rest (differentFiles ++ [mapKey])%list
        else compare_entries rest differentFiles
  end.

(** Lines 78 to 83: what is done with [differentFiles] once the loop is
    over. *)
Definition report_differences (differentFiles : list string)
    (dependenciesWithDifferences : list (string * nat)) : M (list (string * nat)) :=
  if (List.length differentFiles =? 0)%nat then
    logger_info (AllHashesMatched key) ;;
    ret dependenciesWithDifferences
  else
    logger_error (FoundDifferent (List.length differentFiles) key) ;;
    ret (dependenciesWithDifferences ++ [(key, List.length differentFiles)])%list.

(** The inner [try] of lines 58 to 87. *)
Definition compare_and_report (fileMapFromNPM : list (string * bool))
    (dependenciesWithDifferences : list (string * nat)) : M (list (string * nat)) :=
  try_catch
    (differentFiles <- compare_entries fileMapFromNPM [] ;;
     report_differences differentFiles dependenciesWithDifferences)
    (fun err =>
       logger_error (ErrorVerifying key (message_of err)) ;;
       ret dependenciesWithDifferences).

End Comparison.

(** The body of the loop over the lock file, lines 33 to 99; it returns
    the array [dependenciesWithDifferences] as the iteration leaves it. *)
Definition verify_dependency (dependenciesWithDifferences : list (string * nat))
  : M (list (string * nat)) :=
  packageInfo <- getPackageInfoFromRegistry key ;;
  try_catch
    (logger_info (StartingChecks key) ;;
     ghResponse <- downloadCompressedFileFromGitHub key (version packageObj)
                     packageInfo ;;
     let ghDestinationPath := gh_path ghResponse in
     result <- downloadCompressedFileFromNpm key (version packageObj) ;;
     let npmDestinationPath := npm_path result in
     m <- get_module ;;
     let npmDecompressedDestination :=
       NodePath.resolve (cwd w)
         [TEMP_DIR m;
          NodePath.basename npmDestinationPath (NodePath.extname npmDestinationPath)] in
     let githubDecompressedDestination :=
       NodePath.resolve (cwd w)
         [TEMP_DIR m;
          NodePath.basename ghDestinationPath (NodePath.extname ghDestinationPath)] in
     if String.eqb ghDestinationPath "" || String.eqb npmDestinationPath "" then
       ret dependenciesWithDifferences
     else
       logger_debug (Decompressing npmDecompressedDestination) ;;
       decompress npmDestinationPath npmDecompressedDestination ;;
       decompress ghDestinationPath githubDecompressedDestination ;;
       fileMapFromNPM <- getFileMap (npmDecompressedDestination ++ "/package") ;;
       fileMapFromGH <- getFileMap (githubDecompressedDestination ++ "/"
                                    ++ repo ghResponse ++ "-"
                                    ++ Js.template (version packageObj)) ;;
       compare_and_report npmDecompressedDestination githubDecompressedDestination
         ghResponse fileMapFromNPM dependenciesWithDifferences)
    (fun e =>
       on_dependency_error key e ;;
       ret dependenciesWithDifferences).

End Dependency.

(** The loop of line 32 over [Object.entries(lockfile.dependencies)]. *)
Fixpoint verify_entries (entries : list (string * PackageObj))
    (dependenciesWithDifferences : list (string * nat)) : M (list (string * nat)) :=
  match entries with
  | [] => ret dependenciesWithDifferences
  | (key, packageObj) :: rest =>
      dependenciesWithDifferences <-
        verify_dependency key packageObj dependenciesWithDifferences ;;
      verify_entries rest dependenciesWithDifferences
  end.

(** Lines 102 to 107. *)
Definition report (dependenciesWithDifferences : list (string * nat)) : M unit :=
  if (List.length dependenciesWithDifferences =? 0)%nat then
    logger_info FinishedNoDifferences
  else
    let message := String.concat "" (map report_line dependenciesWithDifferences) in
    logger_error
      (FinishedWithDifferences
         ("Finished checking dependencies, found differences on the following packages:"
          ++ newline ++ " " ++ message)).

(** [module.exports.verify], lines 19 to 108. *)
Definition verify (lockfilePath : string) (logLevel : option string)
    (tempDirectory : string) (registryUrl : option string) : M unit :=
  (if Js.truthy registryUrl then set_REGISTRY_BASE_URL (Js.template registryUrl)
   else ret tt) ;;
  set_TEMP_DIR tempDirectory ;;
  let level := if Js.truthy logLevel then Js.template logLevel else "debug" in
  match pino w level with
  | Some e => throw e
  | None => set_logger level
  end ;;
  lockfile <- settle (require_lockfile w (NodePath.resolve (cwd w) [lockfilePath])) ;;
  match dependencies lockfile with
  | None => throw (TypeError "Cannot convert undefined or null to object")
  | Some entries =>
      dependenciesWithDifferences <- verify_entries entries [] ;;
      report dependenciesWithDifferences
  end.

End Engine.

(** ** What the specification calls a verdict

    The engine keeps no verdict records: it reports on a dependency through
    its logger.  [verdict_of] reads, off each logger call that closes the
    check of a dependency, the status of the specification that the call
    reports.  No call of the source reports [SKIPPED]. *)

Inductive Status : Type := OK | MISMATCH | SKIPPED | ERROR.

Definition verdict_of (e : Event) : option (string * Status) :=
  match e with
  | Log _ (AllHashesMatched key) => Some (key, OK)
  | Log _ (FoundDifferent _ key) => Some (key, MISMATCH)
  | Log _ (ErrorVerifying key _) => Some (key, ERROR)
  | Log _ (TarballNotDownloaded key) => Some (key, ERROR)
  | Log _ (ErrorProcessing key _) => Some (key, ERROR)
  | _ => None
  end.

Fixpoint verdicts (t : list Event) : list (string * Status) :=
  match t with
  | [] => []
  | e :: t' =>
      match verdict_of e with
      | Some v => v :: verdicts t'
      | None => verdicts t'
      end
  end.

(** The closing report of a run: the text logged at line 106, if any. *)
Fixpoint final_report (t : list Event) : option string :=
  match t with
  | [] => None
  | e :: t' =>
      match final_report t' with
      | Some r => Some r
      | None =>
          match e with
          | Log _ (FinishedWithDifferences text) => Some text
          | _ => None
          end
      end
  end.

(** [paths] in ascending order, as [Array.prototype.sort] would leave them. *)
Fixpoint sorted (paths : list string) : bool :=
  match paths with
  | [] => true
  | p :: rest =>
      match rest with
      | [] => true
      | q :: _ => String.leb p q && sorted rest
      end
  end.

(** ** Pure readings of the comparison, used to state its result *)

Section Readings.

Variable w : World.
Variable packageObj : PackageObj.
Variables npmDecompressedDestination githubDecompressedDestination : string.
Variable ghResponse : GitHubDownload.

Let npmFile := npmFilePath npmDecompressedDestination.
Let ghFile := ghFilePath packageObj githubDecompressedDestination ghResponse.

(** The path exists on the source side. *)
Definition on_source_side (mapKey : string) : bool := fs_access w (ghFile mapKey).

(** Both files of the pair are there and their hashes differ. *)
Definition divergent (mapKey : string) : bool :=
  on_source_side mapKey
  && match sha1File w (npmFile mapKey), sha1File w (ghFile mapKey) with
     | inr hashNpm, inr hashGH => negb (String.eqb hashNpm hashGH)
     | _, _ => false
     end.

(** Every hash the loop asks for at [mapKey] is delivered. *)
Definition hashable (mapKey : string) : bool :=
  match sha1File w (npmFile mapKey) with
  | inl _ => false
  | inr _ =>
      if on_source_side mapKey
      then match sha1File w (ghFile mapKey) with
           | inl _ => false
           | inr _ => true
           end
      else true
  end.

(** Every pair of files that is compared has equal hashes. *)
Definition all_equal (fileMap : list (string * bool)) : Prop :=
  forall mapKey,
    In mapKey (map fst fileMap) -> on_source_side mapKey = true ->
    sha1File w (npmFile mapKey) = sha1File w (ghFile mapKey).

(** The logger calls of one iteration of the loop. *)
Definition iteration_log (key mapKey : string) : list Event :=
  if negb (on_source_side mapKey) then [Log LWarn (MissingInGitHub mapKey key)]
  else if divergent mapKey
       then [Log LError
               (DifferentHashes key mapKey (Js.template (version packageObj)))]
       else [].

End Readings.

(** The paths below a directory, relative to it, of the files whose name
    ends in [suffix]: segments joined by [/], with a leading [/]. *)
Fixpoint relative_paths (suffix dir : string) (n : Node) : list string :=
  match n with
  | File name =>
      if Js.ends_with suffix name then [dir ++ "/" ++ name] else []
  | Dir name children =>
      flat_map (relative_paths suffix (dir ++ "/" ++ name)) children
  end.

(** The user and the repository name that line 194 and line 195 read off
    the registry document. *)
Definition github_coordinates (w : World) (packageInfo : PackageInfo)
  : option (option string * string) :=
  match repository_url packageInfo with
  | None => None
  | Some u =>
      match url_pathname w u with
      | None => None
      | Some pathname =>
          match nth_error (Js.split "/" pathname) 2 with
          | None => None
          | Some githubRepo =>
              Some (nth_error (Js.split "/" pathname) 1,
                    NodePath.basename githubRepo (NodePath.extname githubRepo))
          end
      end
  end.

(** The reason that the promise of [downloadFile] is rejected with when
    the request at [url] is answered by a failure. *)
Definition failure (w : World) (url : string) : option Exn :=
  match request_get w url with
  | NetworkError msg => Some (Error msg)
  | NoReply => None
  | Response statusCode =>
      if (statusCode <? 200)%N then None
      else
        match Js.first_char (Js.String_of_N statusCode) with
        | Some "2"%char => None
        | _ => Some (Error (Js.String_of_N statusCode))
        end
  end.

(** How the promise of [downloadFile] settles. *)
Definition download_outcome (w : World) (url destinationPath : string)
  : Result string :=
  match write_stream_error w destinationPath with
  | Some e => Halted (Dies e)
  | None =>
      match request_get w url with
      | NetworkError msg => Thrown (Error msg)
      | NoReply => Halted Hangs
      | Response statusCode =>
          if (statusCode <? 200)%N then Halted Hangs
          else
            match Js.first_char (Js.String_of_N statusCode) with
            | Some "2"%char => Returned destinationPath
            | _ => Thrown (Error (Js.String_of_N statusCode))
            end
      end
  end.

(** What is logged when the promise of [downloadFile] settles. *)
Definition settle_events (w : World) (url destinationPath : string) : list Event :=
  match download_outcome w url destinationPath with
  | Returned _ => [Log LDebug (FinishedDownloading url)]
  | Thrown _ =>
      match request_get w url with
      | NetworkError msg => [Log LError (DownloadError url msg)]
      | _ => []
      end
  | Halted _ => []
  end.

(** What the call of [downloadFile] logs and requests. *)
Definition start_events (url : string) : list Event :=
  [Log LDebug (DownloadingFile url); Get ViaRequestGet url].

(** The promise of [downloadFile] is fulfilled. *)
Definition fulfilled (w : World) (url destinationPath : string) : bool :=
  match download_outcome w url destinationPath with
  | Returned _ => true
  | _ => false
  end.

(** Every request is answered, by an error or by a response that is not
    informational. *)
Definition answered (w : World) : Prop :=
  forall url,
    match request_get w url with
    | NetworkError _ => True
    | Response statusCode => (200 <= statusCode)%N
    | NoReply => False
    end.

(** The files that the downloads of an entry of the lock file are written
    to: the two candidates of the source archive and the registry
    tarball. *)
Definition download_files (w : World) (m : Module) (entry : string * PackageObj)
  : list string :=
  map (fun ending =>
         NodePath.resolve (cwd w)
           [TEMP_DIR m;
            fst entry ++ "-" ++ Js.template (version (snd entry)) ++ ending])
    ["-gh.tgz"; "-gh.tar.gz"; "-npm.tgz"].

(** The files of the downloads of [entries] can be written. *)
Definition writable (w : World) (m : Module) (entries : list (string * PackageObj))
  : Prop :=
  Forall (fun entry =>
            Forall (fun path => write_stream_error w path = None)
              (download_files w m entry))
    entries.

(** A tree as directories list it: plain names, and the entries of each
    directory in ascending order of their names, as [fs.readdir] gives
    them. *)
Definition node_name (n : Node) : string :=
  match n with
  | File name => name
  | Dir name _ => name
  end.

Fixpoint plain_tree (n : Node) : bool :=
  match n with
  | File name => NodePath.plain name
  | Dir name children => NodePath.plain name && forallb plain_tree children
  end.

Fixpoint ascending (names : list string) : bool :=
  match names with
  | [] => true
  | a :: rest =>
      match rest with
      | [] => true
      | b :: _ => String.ltb a b && ascending rest
      end
  end.

Fixpoint listed_in_order (n : Node) : bool :=
  match n with
  | File _ => true
  | Dir _ children =>
      ascending (map node_name children) && forallb listed_in_order children
  end.

Definition as_readdir_lists (nodes : list Node) : bool :=
  forallb plain_tree nodes
  && ascending (map node_name nodes)
  && forallb listed_in_order nodes.

(** What [downloadCompressedFileFromGitHub] makes of the outcome of the
    race. *)
Definition archive_of (githubUser : option string) (githubRepoName : string)
    (r : Result string) : Result GitHubDownload :=
  match r with
  | Returned path =>
      Returned {| gh_path := path; repo := githubRepoName; user := githubUser |}
  | Thrown e => Thrown e
  | Halted h => Halted h
  end.

(** The file that a download of the source archive is written to, by the
    ending of its name. *)
Definition gh_file (w : World) (m : Module) (name : string)
    (version : option string) (ending : string) : string :=
  NodePath.resolve (cwd w) [TEMP_DIR m; name ++ "-" ++ Js.template version ++ ending].

(** What the two calls of [downloadFile] and the race log and request:
    both requests are sent before either download settles. *)
Definition race_events (w : World) (first second file1 file2 : string)
  : list Event :=
  (start_events first ++ start_events second
   ++ if first_settles_first w first second
      then settle_events w first file1 ++ settle_events w second file2
      else settle_events w second file2 ++ settle_events w first file1)%list.

(** The requests of a run, in the order in which they are sent. *)
Fixpoint requests (t : list Event) : list (Client * string) :=
  match t with
  | [] => []
  | Get client url :: t' => (client, url) :: requests t'
  | Log _ _ :: t' => requests t'
  end.

(** [url] answers with a status from 200 to 299. *)
Definition responds_2xx (w : World) (url : string) : Prop :=
  exists statusCode,
    request_get w url = Response statusCode /\ (200 <= statusCode <= 299)%N.

(** Where a request may go when the registry base URL is [base]: the
    metadata and the tarball requests to [base], an archive request to
    GitHub. *)
Definition addressed_to (base : string) (e : Event) : Prop :=
  match e with
  | Log _ _ => True
  | Get ViaRp u => prefix (base ++ "/") u = true
  | Get ViaRequest u => prefix (base ++ "/") u = true
  | Get ViaRequestGet u =>
      prefix (base ++ "/") u = true \/ prefix "https://github.com/" u = true
  end.

(** The level that line 26 asks the logger for. *)
Definition level_of (logLevel : option string) : string :=
  if Js.truthy logLevel then Js.template logLevel else "debug".

(** The module-level variables as lines 20 to 26 leave them: the logger is
    assigned only when [pino] accepts the level. *)
Definition configured (w : World) (logLevel : option string)
    (tempDirectory : string) (registryUrl : option string) (m : Module) : Module :=
  {| REGISTRY_BASE_URL :=
       if Js.truthy registryUrl then Js.template registryUrl
       else REGISTRY_BASE_URL m;
     TEMP_DIR := tempDirectory;
     logger :=
       match pino w (level_of logLevel) with
       | None => level_of logLevel
       | Some _ => logger m
       end |}.

(** Lines 28 to 107: the run, once the variables are assigned. *)
Definition check_lockfile (w : World) (lockfilePath : string) : M unit :=
  lockfile <- settle (require_lockfile w (NodePath.resolve (cwd w) [lockfilePath])) ;;
  match dependencies lockfile with
  | None => throw (TypeError "Cannot convert undefined or null to object")
  | Some entries =>
      dependenciesWithDifferences <- verify_entries w entries [] ;;
      report dependenciesWithDifferences
  end.

(** A computation, run from [m], leaves the module-level variables as they
    are and sends its requests where the registry base URL of [m] says. *)
Definition respects {A : Type} (c : M A) (m : Module) : Prop :=
  module_of (c m) = m
  /\ Forall (addressed_to (REGISTRY_BASE_URL m)) (events_of (c m)).

(** Induction over a directory tree. *)
Section NodeInduction.

Variable P : Node -> Prop.
Hypothesis HFile : forall name, P (File name).
Hypothesis HDir : forall name children, Forall P children -> P (Dir name children).

Fixpoint Node_induction (n : Node) : P n :=
  match n with
  | File name => HFile name
  | Dir name children =>
      HDir name children
        ((fix all (l : list Node) : Forall P l :=
            match l with
            | [] => Forall_nil P
            | x :: l' => Forall_cons x (Node_induction x) (all l')
            end) children)
  end.

End NodeInduction.

(** ** Scenarios

    Concrete worlds, built from tables: what is not in a table is not
    there (a request is answered 404, a file does not exist).  The working
    directory is [/work] and the scratch directory [/tmp/dv]; a file can be
    written when it lies directly in the scratch directory. *)

Module Scenario.

Definition known_level (level : string) : bool :=
  existsb (String.eqb level)
    ["trace"; "debug"; "info"; "warn"; "error"; "fatal"; "silent"].

Definition in_scratch (p : string) : bool :=
  prefix "/tmp/dv/" p && negb (Js.has_char "/" (Js.drop 8 p)).

Fixpoint lookup {A : Type} (k : string) (l : list (string * A)) : option A :=
  match l with
  | [] => None
  | (k', a) :: l' => if String.eqb k' k then Some a else lookup k l'
  end.

(** The repository URLs of the scenarios, each with the path that
    [url.parse] reads off it. *)
Definition pathnames : list (string * string) :=
  [("git+https://github.com/stevemao/left-pad.git", "/stevemao/left-pad.git");
   ("https://github.com/someone/right-pad", "/someone/right-pad");
   ("https://github.com/scope/pad", "/scope/pad")].

Record Setup : Type :=
  { lockfiles : list (string * Lockfile);
    documents : list (string * PackageInfo);
    statuses : list (string * N);
    first_wins : bool;
    trees : list (string * list Node);
    files : list (string * string) }.

Definition world (s : Setup) : World :=
  {| cwd := "/work";
     url_pathname u := lookup u pathnames;
     pino level :=
       if known_level level then None else Some (Error "unknown level");
     write_stream_error p :=
       if in_scratch p then None
       else Some (Error "ENOENT: no such file or directory, open");
     require_lockfile p :=
       match lookup p (lockfiles s) with
       | Some l => inr l
       | None => inl (Error "Cannot find module")
       end;
     rp u :=
       match lookup u (documents s) with
       | Some d => inr d
       | None => inl (Error "404 - Not Found")
       end;
     request_get u :=
       Response match lookup u (statuses s) with
                | Some c => c
                | None => 404%N
                end;
     first_settles_first _ _ := first_wins s;
     targz_decompress _ _ := None;
     tree root :=
       match lookup root (trees s) with
       | Some t => inr t
       | None => inl (Error "ENOENT: no such file or directory")
       end;
     sha1File p :=
       match lookup p (files s) with
       | Some h => inr h
       | None => inl (Error "ENOENT: no such file or directory")
       end;
     fs_access p :=
       match lookup p (files s) with
       | Some _ => true
       | None => false
       end |}.

Definition tmp : string := "/tmp/dv".
Definition npm_root : string := "/tmp/dv/left-pad-1.3.0-npm/package".
Definition gh_root : string := "/tmp/dv/left-pad-1.3.0-gh/left-pad-1.3.0".
Definition v_url : string :=
  "https://github.com/stevemao/left-pad/archive/v1.3.0.tar.gz".
Definition plain_url : string :=
  "https://github.com/stevemao/left-pad/archive/1.3.0.tar.gz".
Definition tarball_url : string :=
  "https://registry.npmjs.org/left-pad/-/left-pad-1.3.0.tgz".

Definition left_pad_info : PackageInfo :=
  {| repository :=
       Some {| url := Some "git+https://github.com/stevemao/left-pad.git" |};
     dist_tags := Some {| latest := Some "1.3.0" |} |}.

Definition left_pad : PackageObj := {| version := Some "1.3.0" |}.

(** Where the two archives of [left-pad] are extracted, and what the
    download from GitHub returned. *)
Definition npm_dir : string := "/tmp/dv/left-pad-1.3.0-npm".
Definition gh_dir : string := "/tmp/dv/left-pad-1.3.0-gh".
Definition gh_response : GitHubDownload :=
  {| gh_path := "/tmp/dv/left-pad-1.3.0-gh.tgz";
     repo := "left-pad";
     user := Some "stevemao" |}.

(** The module once [verify] has assigned its variables. *)
Definition started : Module :=
  {| REGISTRY_BASE_URL := "https://registry.npmjs.org";
     TEMP_DIR := tmp;
     logger := "debug" |}.

(** The run of the command line: the default registry, the default level. *)
Definition run (s : Setup) : Result unit * Module * list Event :=
  verify (world s) "package-lock.json" None tmp None loaded.

Definition left_pad_tree : list Node :=
  [File "index.js"; File "package.json"; Dir "test" [File "test.js"]].

(** The manifest of the specification's scenarios, [left-pad] at 1.3.0,
    with both archives holding the same script files. *)
Definition equal_archives : Setup :=
  {| lockfiles :=
       [("/work/package-lock.json",
         {| dependencies := Some [("left-pad", left_pad)] |})];
     documents := [("https://registry.npmjs.org/left-pad", left_pad_info)];
     statuses := [(v_url, 200%N); (tarball_url, 200%N)];
     first_wins := true;
     trees := [(npm_root, left_pad_tree); (gh_root, left_pad_tree)];
     files := [(npm_root ++ "/index.js", "5d0a");
               (npm_root ++ "/test/test.js", "77c1");
               (gh_root ++ "/index.js", "5d0a");
               (gh_root ++ "/test/test.js", "77c1")] |}.

Definition with_files (s : Setup) (fs : list (string * string)) : Setup :=
  {| lockfiles := lockfiles s; documents := documents s; statuses := statuses s;
     first_wins := first_wins s; trees := trees s; files := fs |}.

Definition with_statuses (s : Setup) (st : list (string * N)) : Setup :=
  {| lockfiles := lockfiles s; documents := documents s; statuses := st;
     first_wins := first_wins s; trees := trees s; files := files s |}.

Definition with_trees (s : Setup) (ts : list (string * list Node)) : Setup :=
  {| lockfiles := lockfiles s; documents := documents s; statuses := statuses s;
     first_wins := first_wins s; trees := ts; files := files s |}.

Definition with_documents (s : Setup) (ds : list (string * PackageInfo)) : Setup :=
  {| lockfiles := lockfiles s; documents := ds; statuses := statuses s;
     first_wins := first_wins s; trees := trees s; files := files s |}.

Definition with_dependencies (s : Setup) (deps : list (string * PackageObj))
  : Setup :=
  {| lockfiles := [("/work/package-lock.json", {| dependencies := Some deps |})];
     documents := documents s; statuses := statuses s;
     first_wins := first_wins s; trees := trees s; files := files s |}.

(** [/index.js] differs by a byte between the two archives. *)
Definition index_differs : Setup :=
  with_files equal_archives
    [(npm_root ++ "/index.js", "5d0a");
     (npm_root ++ "/test/test.js", "77c1");
     (gh_root ++ "/index.js", "e3b9");
     (gh_root ++ "/test/test.js", "77c1")].

(** The release on GitHub does not ship [/test/test.js]. *)
Definition test_missing : Setup :=
  with_files equal_archives
    [(npm_root ++ "/index.js", "5d0a");
     (npm_root ++ "/test/test.js", "77c1");
     (gh_root ++ "/index.js", "5d0a")].

(** The registry tarball holds the directory [a], with [z.js] in it, and
    the file [a.js]; both files differ from the release. *)
Definition two_differ_tree : list Node :=
  [Dir "a" [File "z.js"]; File "a.js"].

Definition two_differ : Setup :=
  with_trees
    (with_files equal_archives
       [(npm_root ++ "/a/z.js", "01"); (npm_root ++ "/a.js", "02");
        (gh_root ++ "/a/z.js", "03"); (gh_root ++ "/a.js", "04")])
    [(npm_root, two_differ_tree); (gh_root, two_differ_tree)].

(** The release is tagged [1.3.0], not [v1.3.0]. *)
Definition plain_tag : Setup :=
  with_trees
    (with_files
       (with_statuses equal_archives [(plain_url, 200%N); (tarball_url, 200%N)])
       [(npm_root ++ "/index.js", "5d0a");
        ("/tmp/dv/left-pad-1.3.0-gh.tar/left-pad-1.3.0/index.js", "5d0a")])
    [(npm_root, [File "index.js"]);
     ("/tmp/dv/left-pad-1.3.0-gh.tar/left-pad-1.3.0", [File "index.js"])].

(** A package whose registry document names no repository, listed before
    [left-pad]. *)
Definition no_repository_info : PackageInfo :=
  {| repository := None; dist_tags := Some {| latest := Some "2.0.0" |} |}.

Definition no_repository : Setup :=
  with_documents
    (with_dependencies equal_archives
       [("lonely", {| version := Some "2.0.0" |}); ("left-pad", left_pad)])
    [("https://registry.npmjs.org/lonely", no_repository_info);
     ("https://registry.npmjs.org/left-pad", left_pad_info)].

(** A package the registry does not know, listed before [left-pad]. *)
Definition unknown_package : Setup :=
  with_dependencies equal_archives
    [("no-such-package", {| version := Some "1.0.0" |}); ("left-pad", left_pad)].

(** A package with no release archive on GitHub, listed before [left-pad]. *)
Definition no_release : Setup :=
  with_documents
    (with_dependencies equal_archives
       [("right-pad", {| version := Some "0.1.0" |}); ("left-pad", left_pad)])
    [("https://registry.npmjs.org/right-pad",
      {| repository := Some {| url := Some "https://github.com/someone/right-pad" |};
         dist_tags := Some {| latest := Some "0.1.0" |} |});
     ("https://registry.npmjs.org/left-pad", left_pad_info)].

(** An entry of the lock file without a [version], for a repository that
    has a ref named [undefined]. *)
Definition no_version : Setup :=
  with_statuses
    (with_dependencies equal_archives [("left-pad", {| version := None |})])
    [("https://github.com/stevemao/left-pad/archive/undefined.tar.gz", 200%N);
     (tarball_url, 200%N)].

(** A mirror that serves the same document. *)
Definition mirror : string := "https://npm.example.com".

Definition mirrored : Setup :=
  with_statuses
    (with_documents equal_archives
       [("https://npm.example.com/left-pad", left_pad_info);
        ("https://registry.npmjs.org/left-pad", left_pad_info)])
    [(v_url, 200%N);
     ("https://npm.example.com/left-pad/-/left-pad-1.3.0.tgz", 200%N);
     (tarball_url, 200%N)].

End Scenario.

(** ** Readings used to state what a run leaves behind *)

(** The handler of the outer [catch] reads [e[0].message]: it cannot handle
    an empty array.  Neither the extraction nor the walk of a tree rejects
    with one. *)
Definition no_empty_rejection (w : World) : Prop :=
  (forall src dest, targz_decompress w src dest <> Some (Reasons []))
  /\ (forall root, tree w root <> inl (Reasons [])).

(** The registry answers the metadata request of every entry. *)
Definition metadata_served (w : World) (m : Module)
    (entries : list (string * PackageObj)) : Prop :=
  Forall (fun entry =>
            exists packageInfo,
              rp w (REGISTRY_BASE_URL m ++ "/" ++ fst entry) = inr packageInfo)
    entries.

Definition is_mismatch (v : string * Status) : bool :=
  match snd v with
  | MISMATCH => true
  | _ => false
  end.

(** A computation that, run from [m], leaves the module as it is, reports
    no verdict and does not halt; [P] holds of what it returns and [E] of
    what it throws. *)
Definition quiet {A : Type} (P : A -> Prop) (E : Exn -> Prop) (c : M A)
    (m : Module) : Prop :=
  module_of (c m) = m
  /\ verdicts (events_of (c m)) = []
  /\ match result_of (c m) with
     | Returned a => P a
     | Thrown e => E e
     | Halted _ => False
     end.

(** What a verdict of [key] does to the array [dependenciesWithDifferences]. *)
Definition closes (key : string) (st : Status) (before after : list (string * nat))
  : Prop :=
  match st with
  | MISMATCH => exists count, 0 < count /\ after = (before ++ [(key, count)])%list
  | OK => after = before
  | ERROR => after = before
  | SKIPPED => False
  end.

(** A computation that, run from [m], leaves the module as it is and
    either returns with one verdict of [key] reported, or throws something
    the outer handler can handle with no verdict reported yet. *)
Definition settles (key : string) (before : list (string * nat))
    (c : M (list (string * nat))) (m : Module) : Prop :=
  module_of (c m) = m
  /\ match result_of (c m) with
     | Returned after =>
         exists st, verdicts (events_of (c m)) = [(key, st)]
                    /\ closes key st before after
     | Thrown e => e <> Reasons [] /\ verdicts (events_of (c m)) = []
     | Halted _ => False
     end.

(** Two outcomes that a caller cannot tell apart: the same value, the same
    exception, or no outcome at all. *)
Definition same_outcome {A : Type} (r1 r2 : Result A) : Prop :=
  match r1, r2 with
  | Returned a1, Returned a2 => a1 = a2
  | Thrown e1, Thrown e2 => e1 = e2
  | Halted _, Halted _ => True
  | _, _ => False
  end.

(** Two runs that end alike, leave the same module and report the same
    verdicts in the same order. *)
Definition alike {A : Type} (x y : Result A * Module * list Event) : Prop :=
  same_outcome (result_of x) (result_of y)
  /\ module_of x = module_of y
  /\ verdicts (events_of x) = verdicts (events_of y).

(** The schedulers of two worlds agree wherever the order of a race can
    show: at every pair of downloads that are both fulfilled. *)
Definition same_winners (w : World) (first_wins : string -> string -> bool)
  : Prop :=
  forall url1 url2 file1 file2,
    fulfilled w url1 file1 = true -> fulfilled w url2 file2 = true ->
    first_wins url1 url2 = first_settles_first w url1 url2.

(** The world with another scheduler of the candidate race. *)
Definition with_scheduler (w : World) (first_wins : string -> string -> bool)
  : World :=
  {| cwd := cwd w;
     url_pathname := url_pathname w;
     pino := pino w;
     write_stream_error := write_stream_error w;
     require_lockfile := require_lockfile w;
     rp := rp w;
     request_get := request_get w;
     first_settles_first := first_wins;
     targz_decompress := targz_decompress w;
     tree := tree w;
     sha1File := sha1File w;
     fs_access := fs_access w |}.

Module MoreScenarios.

Import Scenario.

(** [/index.js] differs between the archives and [/test/test.js] cannot be
    read on the source side, where it is a directory. *)
Definition unreadable : Setup :=
  with_files equal_archives
    [(npm_root ++ "/index.js", "5d0a");
     (npm_root ++ "/test/test.js", "77c1");
     (gh_root ++ "/index.js", "e3b9")].

Definition unreadable_world : World :=
  {| cwd := cwd (world unreadable);
     url_pathname := url_pathname (world unreadable);
     pino := pino (world unreadable);
     write_stream_error := write_stream_error (world unreadable);
     require_lockfile := require_lockfile (world unreadable);
     rp := rp (world unreadable);
     request_get := request_get (world unreadable);
     first_settles_first := first_settles_first (world unreadable);
     targz_decompress := targz_decompress (world unreadable);
     tree := tree (world unreadable);
     sha1File p :=
       if String.eqb p (gh_root ++ "/test/test.js")
       then inl (Error "EISDIR: illegal operation on a directory, read")
       else sha1File (world unreadable) p;
     fs_access p :=
       String.eqb p (gh_root ++ "/test/test.js") || fs_access (world unreadable) p |}.

(** The world [w] where the file at [path] is there but cannot be read. *)
Definition with_unreadable (w : World) (path : string) : World :=
  {| cwd := cwd w;
     url_pathname := url_pathname w;
     pino := pino w;
     write_stream_error := write_stream_error w;
     require_lockfile := require_lockfile w;
     rp := rp w;
     request_get := request_get w;
     first_settles_first := first_settles_first w;
     targz_decompress := targz_decompress w;
     tree := tree w;
     sha1File p :=
       if String.eqb p path
       then inl (Error "EISDIR: illegal operation on a directory, read")
       else sha1File w p;
     fs_access p := String.eqb p path || fs_access w p |}.

(** On the source side [/index.js] cannot be read and [/test/test.js] is
    missing. *)
Definition first_unreadable : World :=
  with_unreadable
    (world (with_files equal_archives
              [(npm_root ++ "/index.js", "5d0a");
               (npm_root ++ "/test/test.js", "77c1")]))
    (gh_root ++ "/index.js").

(** A directory with one script file, named with and without a trailing
    slash. *)
Definition trailing_slash : Setup :=
  with_trees equal_archives
    [("/tmp/dv/x/", [File "a.js"]); ("/tmp/dv/x", [File "a.js"])].

(** A scoped package, whose release is tagged [1.0.0]: the files of its
    downloads would lie in [/tmp/dv/@scope], which is not there. *)
Definition scoped_info : PackageInfo :=
  {| repository := Some {| url := Some "https://github.com/scope/pad" |};
     dist_tags := Some {| latest := Some "1.0.0" |} |}.

Definition scoped : Setup :=
  with_statuses
    (with_documents
       (with_dependencies equal_archives
          [("@scope/pad", {| version := Some "1.0.0" |})])
       [("https://registry.npmjs.org/@scope/pad", scoped_info)])
    [("https://github.com/scope/pad/archive/1.0.0.tar.gz", 200%N);
     ("https://registry.npmjs.org/@scope/pad/-/@scope/pad-1.0.0.tgz", 200%N)].

(** Both tags are there, [v1.3.0] with the files of the registry tarball
    and [1.3.0] with another [/index.js]. *)
Definition both_tags : Setup :=
  with_trees
    (with_files
       (with_statuses equal_archives
          [(v_url, 200%N); (plain_url, 200%N); (tarball_url, 200%N)])
       [(npm_root ++ "/index.js", "5d0a");
        (gh_root ++ "/index.js", "5d0a");
        ("/tmp/dv/left-pad-1.3.0-gh.tar/left-pad-1.3.0/index.js", "e3b9")])
    [(npm_root, [File "index.js"]);
     (gh_root, [File "index.js"]);
     ("/tmp/dv/left-pad-1.3.0-gh.tar/left-pad-1.3.0", [File "index.js"])].

(** A scheduler that differs from the one of [w] at one pair of URLs. *)
Definition swapped_at (w : World) (url1 url2 : string)
  : string -> string -> bool :=
  fun u1 u2 =>
    if String.eqb u1 url1 && String.eqb u2 url2
    then negb (first_settles_first w u1 u2)
    else first_settles_first w u1 u2.

(** The first candidate is answered 500, the second 404. *)
Definition server_error : Setup :=
  with_statuses equal_archives [(v_url, 500%N); (tarball_url, 200%N)].

End MoreScenarios.

(** * Properties *)

(** Closed facts about the scenarios are settled by evaluation. *)
Ltac conjuncts := repeat match goal with |- _ /\ _ => split end.
Ltac by_computation := conjuncts; vm_compute; try reflexivity; try tauto.

(** ** The built-ins, on the shapes of argument the engine passes *)

Example includes_404 : Js.includes "404" "404" = true.
Proof. reflexivity. Qed.

Example replace_package_root :
  Js.replace "/tmp/x/package" "" "/tmp/x/package/lib/a.js" = "/lib/a.js".
Proof. reflexivity. Qed.

Example split_pathname :
  Js.split "/" "/stevemao/left-pad.git" = [""; "stevemao"; "left-pad.git"].
Proof. reflexivity. Qed.

Example basename_tgz :
  NodePath.basename "/tmp/left-pad-1.3.0-gh.tgz"
    (NodePath.extname "/tmp/left-pad-1.3.0-gh.tgz") = "left-pad-1.3.0-gh".
Proof. reflexivity. Qed.

Example basename_tar_gz :
  NodePath.basename "/tmp/left-pad-1.3.0-gh.tar.gz"
    (NodePath.extname "/tmp/left-pad-1.3.0-gh.tar.gz") = "left-pad-1.3.0-gh.tar".
Proof. reflexivity. Qed.

Example join_normalises :
  NodePath.join "/tmp/dv/x/" "a.js" = "/tmp/dv/x/a.js"
  /\ NodePath.join "./x" "a.js" = "x/a.js".
Proof. split; reflexivity. Qed.

Example resolve_scratch :
  NodePath.resolve "/work" ["/tmp/dv"; "left-pad-1.3.0-gh.tgz"]
  = "/tmp/dv/left-pad-1.3.0-gh.tgz"
  /\ NodePath.resolve "/work" ["scratch/"; "left-pad-1.3.0-gh.tgz"]
     = "/work/scratch/left-pad-1.3.0-gh.tgz".
Proof. split; reflexivity. Qed.

Example status_text : Js.String_of_N 404 = "404".
Proof. reflexivity. Qed.

(** ** Strings *)

Lemma append_assoc (a b c : string) : (a ++ b) ++ c = a ++ (b ++ c).
Proof. induction a as [|x a IH]; simpl; [reflexivity | now rewrite IH]. Qed.

Lemma prefix_nil (s : string) : prefix "" s = true.
Proof. destruct s; reflexivity. Qed.

Lemma prefix_append (a b : string) : prefix a (a ++ b) = true.
Proof.
  induction a as [|x a IH]; simpl.
  - apply prefix_nil.
  - destruct (ascii_dec x x) as [_|N]; [exact IH | now elim N].
Qed.

Lemma prefix_base (base rest : string) :
  prefix (base ++ "/") (base ++ "/" ++ rest) = true.
Proof. rewrite <- append_assoc. apply prefix_append. Qed.

Lemma drop_append (a b : string) : Js.drop (String.length a) (a ++ b) = b.
Proof.
  induction a as [|x a IH]; simpl; [now destruct b | exact IH].
Qed.

(** Removing a root from a path that starts with it leaves the rest. *)
Lemma replace_root (root rest : string) : Js.replace root "" (root ++ rest) = rest.
Proof.
  assert (E : forall s, Js.replace root "" s
                        = if prefix root s then "" ++ Js.drop (String.length root) s
                          else match s with
                               | EmptyString => EmptyString
                               | String c s' => String c (Js.replace root "" s')
                               end)
    by (intros []; reflexivity).
  rewrite E, prefix_append, drop_append. reflexivity.
Qed.

Lemma ends_with_cons (suf : string) (c : ascii) (s : string) :
  Js.ends_with suf (String c s) = String.eqb (String c s) suf || Js.ends_with suf s.
Proof. reflexivity. Qed.

(** A path matches [/\.js$/] exactly when its last segment does. *)
Lemma ends_with_js_segment (dir name : string) :
  Js.ends_with ".js" (dir ++ "/" ++ name) = Js.ends_with ".js" name.
Proof.
  induction dir as [|x dir IH].
  - reflexivity.
  - change (String x dir ++ "/" ++ name) with (String x (dir ++ "/" ++ name)).
    rewrite ends_with_cons, IH.
    replace (String.eqb (String x (dir ++ "/" ++ name)) ".js") with false;
      [reflexivity|].
    symmetry. apply String.eqb_neq. intros E.
    destruct dir as [|y [|z [|u dir]]]; simpl in E; discriminate E.
Qed.

(** ** Paths *)

Lemma split_not_nil (c : ascii) (s : string) : Js.split c s <> [].
Proof.
  destruct s as [|x s]; cbn [Js.split]; [discriminate|].
  destruct (Js.split c s); [discriminate|].
  destruct (Ascii.eqb x c); discriminate.
Qed.

Lemma split_cons (c x : ascii) (s : string) :
  Js.split c (String x s)
  = match Js.split c s with
    | [] => [String x EmptyString]
    | h :: t => if Ascii.eqb x c then EmptyString :: h :: t else String x h :: t
    end.
Proof. reflexivity. Qed.

(** Splitting at a separator that is there. *)
Lemma split_append (c : ascii) (a b : string) :
  Js.split c (a ++ String c b) = (Js.split c a ++ Js.split c b)%list.
Proof.
  induction a as [|x a IH].
  - cbn [append]. rewrite split_cons.
    destruct (Js.split c b) eqn:E; [now elim (split_not_nil c b)|].
    now rewrite Ascii.eqb_refl.
  - cbn [append]. rewrite !split_cons, IH.
    destruct (Js.split c a) as [|h t] eqn:E; [now elim (split_not_nil c a)|].
    cbn [app]. now destruct (Ascii.eqb x c).
Qed.

Lemma split_no_separator (c : ascii) (s : string) :
  Js.has_char c s = false -> Js.split c s = [s].
Proof.
  induction s as [|x s IH]; [reflexivity|].
  cbn [Js.has_char]. intros H. apply orb_false_iff in H. destruct H as [Hx Hs].
  rewrite split_cons, (IH Hs), Hx. reflexivity.
Qed.

Lemma concat_cons (sep a : string) (l : list string) :
  l <> [] -> String.concat sep (a :: l) = a ++ sep ++ String.concat sep l.
Proof. destruct l; [intros H; now elim H | reflexivity]. Qed.

(** Joining what was split gives the string back. *)
Lemma concat_split (c : ascii) (s : string) :
  String.concat (String c EmptyString) (Js.split c s) = s.
Proof.
  induction s as [|x s IH]; [reflexivity|].
  rewrite split_cons.
  destruct (Js.split c s) as [|h t] eqn:E; [now elim (split_not_nil c s)|].
  destruct (Ascii.eqb_spec x c) as [-> | N].
  - rewrite concat_cons by discriminate. now rewrite IH.
  - destruct t as [|h' t].
    + cbn in *. now rewrite IH.
    + rewrite concat_cons by discriminate.
      rewrite concat_cons in IH by discriminate.
      rewrite <- IH. reflexivity.
Qed.

Lemma concat_snoc_sep (sep x : string) (l : list string) :
  l <> [] ->
  String.concat sep (l ++ [x]) = String.concat sep l ++ sep ++ x.
Proof.
  induction l as [|a l IH]; [intros H; now elim H|]. intros _.
  destruct l as [|b l]; [reflexivity|].
  change ((a :: b :: l) ++ [x])%list with (a :: ((b :: l) ++ [x]))%list.
  rewrite concat_cons by (destruct l; discriminate).
  rewrite IH by discriminate.
  rewrite (concat_cons sep a (b :: l)) by discriminate.
  now rewrite !append_assoc.
Qed.

Lemma plain_segment (s : string) :
  NodePath.plain s = true ->
  String.eqb s "" = false /\ String.eqb s "." = false
  /\ String.eqb s ".." = false /\ Js.has_char "/" s = false.
Proof.
  unfold NodePath.plain. intros H.
  repeat (apply andb_prop in H; destruct H as [H ?]).
  repeat split; now apply negb_true_iff.
Qed.

(** Plain segments are kept as they are. *)
Lemma normal_segments_plain (absolute : bool) (segments : list string) :
  forallb NodePath.plain segments = true ->
  forall stack,
    NodePath.normal_segments absolute stack segments = (rev stack ++ segments)%list.
Proof.
  induction segments as [|s rest IH]; intros H stack.
  - cbn. now rewrite app_nil_r.
  - cbn [forallb] in H. apply andb_prop in H. destruct H as [Hs Hrest].
    destruct (plain_segment s Hs) as [H1 [H2 [H3 _]]].
    cbn [NodePath.normal_segments]. rewrite H1, H2, H3. cbn [orb].
    rewrite (IH Hrest). cbn [rev]. now rewrite <- app_assoc.
Qed.

Lemma ends_with_slash_plain (s : string) :
  Js.has_char "/" s = false -> Js.ends_with "/" s = false.
Proof.
  induction s as [|x s IH]; [reflexivity|].
  cbn [Js.has_char]. intros H. apply orb_false_iff in H. destruct H as [Hx Hs].
  rewrite ends_with_cons, (IH Hs), orb_false_r.
  apply String.eqb_neq. intros E. injection E as -> _.
  rewrite Ascii.eqb_refl in Hx. discriminate.
Qed.

Lemma ends_with_slash_append (a b : string) :
  b <> "" -> Js.ends_with "/" (a ++ b) = Js.ends_with "/" b.
Proof.
  intros Hb. induction a as [|x a IH]; [reflexivity|].
  cbn [append]. rewrite ends_with_cons, IH.
  replace (String.eqb (String x (a ++ b)) "/") with false; [reflexivity|].
  symmetry. apply String.eqb_neq. intros E. injection E as _ E.
  destruct a; [now elim Hb | discriminate E].
Qed.

Lemma split_leading_separator (c : ascii) (s : string) (x : string)
    (l : list string) :
  Js.split c s = EmptyString :: x :: l -> exists s', s = String c s'.
Proof.
  destruct s as [|a s]; [discriminate|]. rewrite split_cons.
  destruct (Js.split c s) as [|h t]; [discriminate|].
  destruct (Ascii.eqb_spec a c) as [-> | N]; [eauto | discriminate].
Qed.

(** Below a clean directory, [path.join] with a plain name puts a slash
    between the two, and the result is clean. *)
Lemma join_clean (dir name : string) :
  NodePath.clean dir = true -> NodePath.plain name = true ->
  NodePath.join dir name = dir ++ "/" ++ name
  /\ NodePath.clean (dir ++ "/" ++ name) = true.
Proof.
  intros Hdir Hname. unfold NodePath.clean in Hdir.
  destruct (Js.split "/" dir) as [|[|] [|seg segs]] eqn:E; try discriminate Hdir.
  destruct (split_leading_separator _ _ _ _ E) as [dir' Hd].
  destruct (plain_segment name Hname) as [Hne [_ [_ Hslash]]].
  assert (Hsplit : Js.split "/" (dir ++ "/" ++ name)
                   = EmptyString :: (seg :: segs ++ [name])%list).
  { change (dir ++ "/" ++ name) with (dir ++ String "/" name).
    rewrite split_append, E, (split_no_separator _ _ Hslash). reflexivity. }
  assert (Hall : forallb NodePath.plain (seg :: segs ++ [name]) = true).
  { change (seg :: segs ++ [name])%list with ((seg :: segs) ++ [name])%list.
    rewrite forallb_app, Hdir. cbn. now rewrite Hname. }
  assert (Hdirtext : dir = "/" ++ String.concat "/" (seg :: segs)).
  { rewrite <- (concat_split "/" dir) at 1. rewrite E.
    now rewrite concat_cons by discriminate. }
  split.
  - unfold NodePath.join.
    replace (String.eqb dir "") with false by (now rewrite Hd).
    rewrite Hne. unfold NodePath.normalize.
    replace (String.eqb (dir ++ "/" ++ name) "") with false by (now rewrite Hd).
    replace (prefix "/" (dir ++ "/" ++ name)) with true
      by (rewrite Hd; cbn [append prefix];
          destruct (ascii_dec "/" "/") as [_|N]; [now rewrite prefix_nil | now elim N]).
    rewrite Hsplit.
    change (NodePath.normal_segments true [] (EmptyString :: seg :: segs ++ [name]))
      with (NodePath.normal_segments true [] (seg :: segs ++ [name])).
    rewrite (normal_segments_plain true _ Hall []). cbn [rev app].
    change (seg :: segs ++ [name])%list with ((seg :: segs) ++ [name])%list.
    rewrite concat_snoc_sep by discriminate.
    replace (Js.ends_with "/" (dir ++ "/" ++ name)) with false.
    2:{ rewrite <- append_assoc.
        rewrite (ends_with_slash_append (dir ++ "/") name)
          by (intros F; rewrite F in Hne; discriminate Hne).
        symmetry. exact (ends_with_slash_plain _ Hslash). }
    cbn [negb andb]. rewrite !andb_false_r.
    rewrite Hdirtext. now rewrite !append_assoc.
  - unfold NodePath.clean. rewrite Hsplit. exact Hall.
Qed.


(** No segment of a split holds the separator. *)
Lemma split_segments (c : ascii) (s : string) :
  Forall (fun segment => Js.has_char c segment = false) (Js.split c s).
Proof.
  induction s as [|x s IH]; [repeat constructor|].
  rewrite split_cons.
  destruct (Js.split c s) as [|h t] eqn:Es; [now elim (split_not_nil c s)|].
  inversion IH as [|? ? Hh Ht]; subst.
  destruct (Ascii.eqb x c) eqn:E.
  - constructor; [reflexivity | now constructor].
  - constructor; [|exact Ht]. cbn [Js.has_char]. now rewrite E, Hh.
Qed.

(** What is left of the segments of an absolute path is plain. *)
Lemma normal_segments_absolute (segments : list string) :
  Forall (fun segment => Js.has_char "/" segment = false) segments ->
  forall stack,
    forallb NodePath.plain stack = true ->
    forallb NodePath.plain (NodePath.normal_segments true stack segments) = true.
Proof.
  induction 1 as [|s rest Hs Hrest IH]; intros stack Hstack.
  - cbn [NodePath.normal_segments]. apply forallb_forall. intros x Hx.
    rewrite forallb_forall in Hstack. apply Hstack. now apply in_rev.
  - cbn [NodePath.normal_segments].
    destruct (String.eqb s "") eqn:E1; [now apply IH|].
    destruct (String.eqb s ".") eqn:E2; [now apply IH|]. cbn [orb].
    destruct (String.eqb s "..") eqn:E3.
    + destruct stack as [|top below]; [now apply IH|].
      cbn [forallb] in Hstack. apply andb_prop in Hstack.
      destruct Hstack as [Htop Hbelow].
      destruct (plain_segment top Htop) as [_ [_ [-> _]]]. now apply IH.
    + apply IH. cbn [forallb]. rewrite Hstack, andb_true_r.
      unfold NodePath.plain. now rewrite E1, E2, E3, Hs.
Qed.

(** Splitting what was joined from plain segments gives them back. *)
Lemma split_concat (segments : list string) :
  segments <> [] -> forallb NodePath.plain segments = true ->
  Js.split "/" (String.concat "/" segments) = segments.
Proof.
  induction segments as [|a l IH]; [intros H; now elim H|]. intros _ H.
  cbn [forallb] in H. apply andb_prop in H. destruct H as [Ha Hl].
  destruct (plain_segment a Ha) as [_ [_ [_ Hslash]]].
  destruct l as [|b l]; [exact (split_no_separator _ _ Hslash)|].
  rewrite concat_cons by discriminate.
  change (a ++ "/" ++ String.concat "/" (b :: l))
    with (a ++ String "/" (String.concat "/" (b :: l))).
  rewrite split_append, (split_no_separator _ _ Hslash), IH;
    [reflexivity | discriminate | exact Hl].
Qed.

(** Every path that [path.resolve] gives, the root directory apart, is
    clean. *)
Lemma resolve_clean (cwd : string) (args : list string) :
  NodePath.resolve cwd args <> "/" ->
  NodePath.clean (NodePath.resolve cwd args) = true.
Proof.
  unfold NodePath.resolve. cbv zeta.
  set (segments := NodePath.normal_segments true [] _).
  assert (Hplain : forallb NodePath.plain segments = true)
    by (apply normal_segments_absolute; [apply split_segments | reflexivity]).
  destruct segments as [|seg segs] eqn:E; [intros H; now elim H|]. intros _.
  unfold NodePath.clean.
  change ("/" ++ String.concat "/" (seg :: segs))
    with ("" ++ String "/" (String.concat "/" (seg :: segs))).
  rewrite split_append, split_concat; [exact Hplain | discriminate | exact Hplain].
Qed.

(** The directories that [verify] walks: a directory below a path that
    [path.resolve] gives is clean. *)
Lemma resolve_below_clean (cwd : string) (args : list string) (name : string) :
  NodePath.resolve cwd args <> "/" -> NodePath.plain name = true ->
  NodePath.clean (NodePath.resolve cwd args ++ "/" ++ name) = true.
Proof.
  intros H Hname. now apply join_clean; [apply resolve_clean|].
Qed.

Lemma length_append (a b : string) :
  String.length (a ++ b) = String.length a + String.length b.
Proof. induction a as [|x a IH]; [reflexivity|]. cbn. now rewrite IH. Qed.

Lemma append_cancel_r (a b s : string) : a ++ s = b ++ s -> a = b.
Proof.
  intros H.
  assert (Hl : String.length a = String.length b).
  { apply (f_equal String.length) in H. rewrite !length_append in H. lia. }
  revert b H Hl. induction a as [|x a IH]; intros [|y b] H Hl;
    try discriminate Hl; [reflexivity|].
  cbn [append] in H. injection H as -> H. f_equal.
  apply IH; [exact H | now injection Hl].
Qed.
(** ** The file map *)

Lemma append_nil_r (s : string) : s ++ "" = s.
Proof. induction s as [|x s IH]; simpl; [reflexivity | now rewrite IH]. Qed.

(** The walk below a clean [root] of a tree of plain names gives the
    relative paths, each with [root] put before it. *)
Lemma walk_relative (n : Node) :
  plain_tree n = true ->
  forall root rel,
    NodePath.clean (root ++ rel) = true ->
    walk ".js" (root ++ rel) n = map (append root) (relative_paths ".js" rel n).
Proof.
  induction n as [name | name children IH] using Node_induction;
    intros Hplain root rel Hclean; cbn [plain_tree] in Hplain.
  - cbn [walk relative_paths].
    destruct (join_clean _ _ Hclean Hplain) as [-> _].
    rewrite ends_with_js_segment, append_assoc.
    destruct (Js.ends_with ".js" name); reflexivity.
  - apply andb_prop in Hplain. destruct Hplain as [Hname Hchildren].
    cbn [walk relative_paths].
    destruct (join_clean _ _ Hclean Hname) as [-> Hclean'].
    rewrite forallb_forall in Hchildren. rewrite Forall_forall in IH.
    rewrite flat_map_concat_map, (flat_map_concat_map _ children).
    rewrite concat_map, map_map. f_equal.
    apply map_ext_in. intros child Hin.
    rewrite <- (IH child Hin (Hchildren child Hin) root (rel ++ "/" ++ name)).
    + now rewrite append_assoc.
    + now rewrite <- append_assoc.
Qed.

Lemma find_file_relative (root : string) (nodes : list Node) :
  NodePath.clean root = true ->
  forallb plain_tree nodes = true ->
  find_file ".js" root nodes
  = map (append root) (flat_map (relative_paths ".js" "") nodes).
Proof.
  intros Hclean Hplain. unfold find_file. rewrite forallb_forall in Hplain.
  rewrite !flat_map_concat_map, concat_map, map_map. f_equal.
  apply map_ext_in. intros n Hin.
  rewrite <- (walk_relative n (Hplain n Hin) root "");
    now rewrite append_nil_r.
Qed.

(** A relative path starts with a slash. *)
Lemma relative_paths_slash (suffix : string) (n : Node) :
  forall dir k,
    (dir = "" \/ prefix "/" dir = true) ->
    In k (relative_paths suffix dir n) -> prefix "/" k = true.
Proof.
  assert (Hgo : forall dir name,
             (dir = "" \/ prefix "/" dir = true) ->
             prefix "/" (dir ++ "/" ++ name) = true).
  { intros dir name [-> | H]; [apply (prefix_append "/" name)|].
    destruct dir as [|c dir]; [discriminate H|].
    cbn [prefix append] in *.
    destruct (ascii_dec "/" c); [apply prefix_nil | discriminate H]. }
  induction n as [name | name children IH] using Node_induction; intros dir k Hdir.
  - simpl. destruct (Js.ends_with suffix name); simpl; [|tauto].
    intros [<- | []]. now apply Hgo.
  - simpl. rewrite in_flat_map. intros [child [Hin Hk]].
    rewrite Forall_forall in IH.
    apply (IH child Hin (dir ++ "/" ++ name) k); [|exact Hk].
    right. now apply Hgo.
Qed.

(** Keys of an object after an assignment. *)
Lemma obj_set_keys (k : string) (v : bool) (o : list (string * bool)) :
  forall x, In x (map fst (obj_set k v o)) <-> In x (map fst o) \/ x = k.
Proof.
  induction o as [|[k' v'] o IH]; intros x; simpl.
  - intuition congruence.
  - destruct (String.eqb_spec k' k) as [-> | N]; simpl.
    + intuition congruence.
    + rewrite IH. tauto.
Qed.

Lemma obj_set_NoDup (k : string) (v : bool) (o : list (string * bool)) :
  NoDup (map fst o) -> NoDup (map fst (obj_set k v o)).
Proof.
  induction o as [|[k' v'] o IH]; simpl; intros H.
  - constructor; [intros [] | constructor].
  - destruct (String.eqb_spec k' k) as [-> | N]; simpl; [exact H|].
    inversion H as [|? ? Hnot Hrest]; subst.
    constructor; [|now apply IH].
    rewrite obj_set_keys. intros [Hin | E]; [now apply Hnot | now apply N].
Qed.

(** The object that the [forEach] of [getFileMap] builds from [keys]. *)
Lemma assigned_keys (keys : list string) :
  forall o,
    let o' := fold_left (fun result key => obj_set key true result) keys o in
    (forall x, In x (map fst o') <-> In x (map fst o) \/ In x keys)
    /\ (NoDup (map fst o) -> NoDup (map fst o')).
Proof.
  induction keys as [|k keys IH]; intros o; simpl.
  - split; [intros x; tauto | trivial].
  - destruct (IH (obj_set k true o)) as [Hin Hnd]. split.
    + intros x. rewrite Hin, obj_set_keys. intuition (subst; auto).
    + intros H. now apply Hnd, obj_set_NoDup.
Qed.

Lemma fold_left_map {A B C} (f : A -> B -> A) (g : C -> B) (l : list C) :
  forall a, fold_left f (map g l) a = fold_left (fun x c => f x (g c)) l a.
Proof. induction l as [|c l IH]; intros a; simpl; [reflexivity | apply IH]. Qed.

Lemma fold_left_pointwise {A B} (f g : A -> B -> A) (l : list B) :
  (forall a b, f a b = g a b) -> forall a, fold_left f l a = fold_left g l a.
Proof.
  intros E. induction l as [|b l IH]; intros a; simpl; [reflexivity|].
  now rewrite E, IH.
Qed.

(** The result of [getFileMap] is a function of the tree below the root,
    not of the root. *)
Lemma getFileMap_returns (w : World) (root : string) (nodes : list Node) (m : Module) :
  tree w root = inr nodes ->
  NodePath.clean root = true ->
  forallb plain_tree nodes = true ->
  getFileMap w root m
  = (Returned (fold_left (fun result key => obj_set key true result)
                 (flat_map (relative_paths ".js" "") nodes) []), m, []).
Proof.
  intros H Hclean Hplain. unfold getFileMap, findFiles, bind, settle. rewrite H.
  cbn [ret app]. rewrite (find_file_relative _ _ Hclean Hplain), fold_left_map.
  do 3 f_equal.
  apply fold_left_pointwise. intros o rel. now rewrite replace_root.
Qed.

(** ** The comparison of the two trees *)

Section ComparisonFacts.

Variable w : World.
Variable key : string.
Variable packageObj : PackageObj.
Variables npmD ghD : string.
Variable ghR : GitHubDownload.

Notation loop := (compare_entries w key packageObj npmD ghD ghR).
Notation differs := (divergent w packageObj npmD ghD ghR).
Notation readable := (hashable w packageObj npmD ghD ghR).
Notation present := (on_source_side w packageObj ghD ghR).
Notation logged := (iteration_log w packageObj npmD ghD ghR key).

(** One iteration of the loop, when its hashes are delivered. *)
Lemma compare_entries_step (mapKey : string) (value : bool)
    (rest : list (string * bool)) (acc : list string) (m : Module) :
  readable mapKey = true ->
  loop ((mapKey, value) :: rest) acc m
  = match loop rest (if differs mapKey then acc ++ [mapKey] else acc)%list m with
    | (r, m', t) => (r, m', (logged mapKey ++ t)%list)
    end.
Proof.
  unfold iteration_log, hashable, divergent, on_source_side.
  cbn [compare_entries]. unfold bind at 1. unfold getHash at 1, settle.
  destruct (sha1File w (npmFilePath npmD mapKey)) as [e | hashNpm];
    [discriminate|].
  cbn [ret throw]. unfold bind at 1. unfold fileExists at 1, ret at 1.
  destruct (fs_access w (ghFilePath packageObj ghD ghR mapKey)); cbn [negb andb].
  - unfold bind at 1. unfold getHash at 1, settle.
    destruct (sha1File w (ghFilePath packageObj ghD ghR mapKey)) as [e | hashGH];
      [discriminate|].
    intros _. cbn [ret]. destruct (negb (hashNpm =? hashGH)%string).
    + unfold bind at 1. unfold logger_error, emit.
      destruct (loop rest (acc ++ [mapKey])%list m) as [[r m'] t]. reflexivity.
    + destruct (loop rest acc m) as [[r m'] t]. reflexivity.
  - intros _. unfold bind at 1. unfold logger_warn, emit.
    destruct (loop rest acc m) as [[r m'] t]. reflexivity.
Qed.

(** An iteration that is refused a hash throws. *)
Lemma compare_entries_refused (mapKey : string) (value : bool)
    (rest : list (string * bool)) (acc : list string) (m : Module) :
  readable mapKey = false ->
  exists e, loop ((mapKey, value) :: rest) acc m = (Thrown e, m, []).
Proof.
  unfold hashable, on_source_side.
  cbn [compare_entries]. unfold bind at 1. unfold getHash at 1, settle.
  destruct (sha1File w (npmFilePath npmD mapKey)) as [e | hashNpm];
    [intros _; now exists e|].
  cbn [ret]. unfold bind at 1. unfold fileExists at 1, ret at 1.
  destruct (fs_access w (ghFilePath packageObj ghD ghR mapKey));
    [|discriminate].
  cbn [negb]. unfold bind at 1. unfold getHash at 1, settle.
  destruct (sha1File w (ghFilePath packageObj ghD ghR mapKey)) as [e | hashGH];
    [intros _; now exists e | discriminate].
Qed.

Lemma filter_differs_cons (mapKey : string) (keys acc : list string) :
  ((if differs mapKey then acc ++ [mapKey] else acc) ++ filter differs keys
   = acc ++ filter differs (mapKey :: keys))%list.
Proof.
  cbn [filter]. destruct (differs mapKey); [|reflexivity].
  now rewrite <- app_assoc.
Qed.

(** When every hash is delivered the loop returns the divergent keys, in
    the order of the entries, and leaves the logger calls of its
    iterations. *)
Lemma compare_entries_returns (entries : list (string * bool)) :
  forall acc m,
    forallb readable (map fst entries) = true ->
    loop entries acc m
    = (Returned (acc ++ filter differs (map fst entries))%list, m,
       flat_map logged (map fst entries)).
Proof.
  induction entries as [|[mapKey value] rest IH]; intros acc m H.
  - cbn. now rewrite app_nil_r.
  - cbn [map fst forallb] in H. apply andb_prop in H. destruct H as [Hk Hrest].
    rewrite (compare_entries_step _ _ _ _ _ Hk), (IH _ m Hrest).
    cbn [map fst flat_map]. now rewrite filter_differs_cons.
Qed.

(** A loop that returns was delivered every hash. *)
Lemma compare_entries_completed (entries : list (string * bool)) :
  forall acc m differentFiles m1 t1,
    loop entries acc m = (Returned differentFiles, m1, t1) ->
    forallb readable (map fst entries) = true.
Proof.
  induction entries as [|[mapKey value] rest IH];
    intros acc m differentFiles m1 t1 H; [reflexivity|].
  cbn [map fst forallb].
  destruct (readable mapKey) eqn:Hk.
  - rewrite (compare_entries_step _ _ _ _ _ Hk) in H.
    destruct (loop rest _ m) as [[r m'] t] eqn:E.
    injection H as -> -> _. now rewrite (IH _ _ _ _ _ E).
  - destruct (compare_entries_refused mapKey value rest acc m Hk) as [e He].
    rewrite He in H. discriminate H.
Qed.

Lemma compare_entries_result (entries : list (string * bool))
    (m : Module) (differentFiles : list string) (m1 : Module) (t1 : list Event) :
  loop entries [] m = (Returned differentFiles, m1, t1) ->
  differentFiles = filter differs (map fst entries)
  /\ m1 = m
  /\ t1 = flat_map logged (map fst entries).
Proof.
  intros H. pose proof (compare_entries_completed _ _ _ _ _ _ H) as Hall.
  rewrite (compare_entries_returns _ [] m Hall) in H.
  injection H as <- <- <-. auto.
Qed.

(** The logger calls of the loop: a warning for each path that is missing
    on the source side, an error for each divergent path. *)
Lemma logged_missing (keys : list string) (p : string) :
  In p keys -> present p = false ->
  In (Log LWarn (MissingInGitHub p key)) (flat_map logged keys).
Proof.
  intros Hin Hp. apply in_flat_map. exists p. split; [exact Hin|].
  unfold iteration_log. rewrite Hp. now left.
Qed.

Lemma logged_divergent (keys : list string) (p : string) :
  In p keys -> differs p = true ->
  In (Log LError (DifferentHashes key p (Js.template (version packageObj))))
    (flat_map logged keys).
Proof.
  intros Hin Hp. apply in_flat_map. exists p. split; [exact Hin|].
  unfold iteration_log. rewrite Hp.
  unfold divergent in Hp. apply andb_prop in Hp. destruct Hp as [-> _]. now left.
Qed.

End ComparisonFacts.

(** C6, as the code has it.  For every root directory that is given as a
    clean path (absolute, normalised, without a trailing slash, as the
    paths that [verify] builds are: [resolve_below_clean]) and whose tree
    can be walked,
    [getFileMap] returns a map whose keys are exactly the paths, relative
    to the root, of the files below the root whose name ends in [.js];
    each key is made of the segments joined by forward slashes and starts
    with a slash, the keys are pairwise distinct, and another clean root
    with the same tree below it gives the very same map. *)
Theorem getFileMap_keys_relative (w : World) (root : string) (nodes : list Node)
    (m : Module) :
  tree w root = inr nodes ->
  NodePath.clean root = true ->
  forallb plain_tree nodes = true ->
  exists fileMap,
    getFileMap w root m = (Returned fileMap, m, [])
    /\ (forall k, In k (map fst fileMap)
                  <-> In k (flat_map (relative_paths ".js" "") nodes))
    /\ NoDup (map fst fileMap)
    /\ (forall k, In k (map fst fileMap) -> prefix "/" k = true)
    /\ (forall root', NodePath.clean root' = true ->
                      tree w root' = inr nodes ->
                      getFileMap w root' m = (Returned fileMap, m, [])).
Proof.
  intros H Hclean Hplain. eexists.
  split; [apply (getFileMap_returns _ _ _ _ H Hclean Hplain)|].
  destruct (assigned_keys (flat_map (relative_paths ".js" "") nodes) [])
    as [Hin Hnd].
  assert (Hkeys : forall k,
             In k (map fst (fold_left (fun result key => obj_set key true result)
                              (flat_map (relative_paths ".js" "") nodes) []))
             <-> In k (flat_map (relative_paths ".js" "") nodes)).
  { intros k. rewrite Hin. simpl. tauto. }
  split; [exact Hkeys|]. split; [apply Hnd; constructor|]. split.
  - intros k Hk. apply Hkeys in Hk. apply in_flat_map in Hk.
    destruct Hk as [n [_ Hk]].
    apply (relative_paths_slash ".js" n "" k); [now left | exact Hk].
  - intros root' Hclean' H'. apply (getFileMap_returns _ _ _ _ H' Hclean' Hplain).
Qed.

Lemma getFileMap_keys_relative_witness :
  exists fileMap,
    getFileMap (Scenario.world Scenario.equal_archives) Scenario.npm_root loaded
    = (Returned fileMap, loaded, [])
    /\ (forall k, In k (map fst fileMap)
                  <-> In k (flat_map (relative_paths ".js" "")
                              Scenario.left_pad_tree))
    /\ NoDup (map fst fileMap)
    /\ (forall k, In k (map fst fileMap) -> prefix "/" k = true)
    /\ (forall root',
           NodePath.clean root' = true ->
           tree (Scenario.world Scenario.equal_archives) root'
           = inr Scenario.left_pad_tree ->
           getFileMap (Scenario.world Scenario.equal_archives) root' loaded
           = (Returned fileMap, loaded, [])).
Proof.
  apply (getFileMap_keys_relative (Scenario.world Scenario.equal_archives)
           Scenario.npm_root Scenario.left_pad_tree loaded);
    vm_compute; reflexivity.
Defined.

(** C6, as the specification has it, fails: for a root that is given with
    a trailing slash the walk still makes its paths with [path.join], which
    drops the doubled slash, and removing the root leaves a key without a
    leading slash; the same directory named without the slash gives
    another key. *)
Lemma key_without_leading_slash :
  getFileMap (Scenario.world MoreScenarios.trailing_slash) "/tmp/dv/x/" loaded
  = (Returned [("a.js", true)], loaded, [])
  /\ prefix "/" "a.js" = false
  /\ getFileMap (Scenario.world MoreScenarios.trailing_slash) "/tmp/dv/x" loaded
     = (Returned [("/a.js", true)], loaded, []).
Proof. by_computation. Qed.

(** ** The verdict of a dependency *)

Lemma concat_snoc (l : list string) (x : string) :
  String.concat "" (l ++ [x]) = String.concat "" l ++ x.
Proof.
  induction l as [|a l IH]; [reflexivity|].
  destruct l as [|b l].
  - simpl. reflexivity.
  - change (String.concat "" ((a :: b :: l) ++ [x]))
      with (a ++ "" ++ String.concat "" ((b :: l) ++ [x])).
    rewrite IH.
    change (String.concat "" (a :: b :: l))
      with (a ++ "" ++ String.concat "" (b :: l)).
    simpl append. now rewrite append_assoc.
Qed.

Section Verdict.

Variable w : World.
Variable key : string.
Variable packageObj : PackageObj.
Variables npmD ghD : string.
Variable ghR : GitHubDownload.

Notation loop := (compare_entries w key packageObj npmD ghD ghR).
Notation differs := (divergent w packageObj npmD ghD ghR).
Notation readable := (hashable w packageObj npmD ghD ghR).
Notation present := (on_source_side w packageObj ghD ghR).

Notation all_equal := (all_equal w packageObj npmD ghD ghR).

Lemma differs_false_iff (p : string) :
  readable p = true ->
  (differs p = false
   <-> (present p = true ->
        sha1File w (npmFilePath npmD p)
        = sha1File w (ghFilePath packageObj ghD ghR p))).
Proof.
  unfold hashable, divergent.
  destruct (sha1File w (npmFilePath npmD p)) as [e | a]; [discriminate|].
  destruct (on_source_side w packageObj ghD ghR p);
    [|intros _; cbn [andb]; split; [intros _ F; discriminate F | reflexivity]].
  destruct (sha1File w (ghFilePath packageObj ghD ghR p)) as [e | b];
    [discriminate|].
  intros _. cbn [andb]. destruct (String.eqb_spec a b) as [-> | N]; cbn [negb].
  - tauto.
  - split; [discriminate|]. intros H. specialize (H eq_refl).
    injection H as H. now elim N.
Qed.

Lemma no_divergent_iff (fileMap : list (string * bool)) :
  forallb readable (map fst fileMap) = true ->
  (filter differs (map fst fileMap) = [] <-> all_equal fileMap).
Proof.
  intros Hall. rewrite forallb_forall in Hall. unfold all_equal. split.
  - intros Hnil p Hin. apply differs_false_iff; [now apply Hall|].
    destruct (differs p) eqn:E; [|reflexivity].
    assert (Hp : In p (filter differs (map fst fileMap)))
      by (apply filter_In; auto).
    rewrite Hnil in Hp. destruct Hp.
  - intros Heq.
    destruct (filter differs (map fst fileMap)) as [|p rest] eqn:E;
      [reflexivity|].
    assert (Hp : In p (filter differs (map fst fileMap)))
      by (rewrite E; now left).
    apply filter_In in Hp. destruct Hp as [Hin Hd].
    apply (differs_false_iff p (Hall p Hin)) in Heq; [congruence | exact Hin].
Qed.

(** What the inner [try] does once its loop has returned. *)
Lemma compare_and_report_completed (fileMap : list (string * bool))
    (dwd : list (string * nat)) (m : Module)
    (differentFiles : list string) (m1 : Module) (t1 : list Event) :
  loop fileMap [] m = (Returned differentFiles, m1, t1) ->
  compare_and_report w key packageObj npmD ghD ghR fileMap dwd m
  = match differentFiles with
    | [] => (Returned dwd, m, (t1 ++ [Log LInfo (AllHashesMatched key)])%list)
    | _ :: _ =>
        (Returned (dwd ++ [(key, List.length differentFiles)])%list, m,
         (t1 ++ [Log LError (FoundDifferent (List.length differentFiles) key)])%list)
    end.
Proof.
  intros H. destruct (compare_entries_result _ _ _ _ _ _ _ _ _ _ _ H)
    as [_ [-> _]].
  unfold compare_and_report, try_catch, bind. rewrite H.
  unfold report_differences. destruct differentFiles; reflexivity.
Qed.

End Verdict.

Section ComparisonClaims.

Variable w : World.
Variable key : string.
Variable packageObj : PackageObj.
Variables npmDecompressedDestination githubDecompressedDestination : string.
Variable ghResponse : GitHubDownload.

Notation npmD := npmDecompressedDestination.
Notation ghD := githubDecompressedDestination.
Notation loop := (compare_entries w key packageObj npmD ghD ghResponse).
Notation differs := (divergent w packageObj npmD ghD ghResponse).
Notation present := (on_source_side w packageObj ghD ghResponse).

(** C1, as the code has it.  For every dependency whose comparison loop
    completes: [differentFiles] holds exactly the divergent paths of the
    registry-side file map, each of which was logged as it was found; it
    is empty exactly when every compared pair of files has equal hashes,
    and then the dependency is reported as matching and nothing is added to
    the closing report; otherwise the dependency is reported as
    mismatching, and what the closing report carries for it is its name
    and the number of divergent paths, not the paths. *)
Theorem completed_comparison_verdict (fileMap : list (string * bool))
    (dependenciesWithDifferences : list (string * nat)) (m : Module)
    (differentFiles : list string) (m1 : Module) (t1 : list Event) :
  loop fileMap [] m = (Returned differentFiles, m1, t1) ->
  (differentFiles = []
   <-> all_equal w packageObj npmD ghD ghResponse fileMap)
  /\ (forall p, In p differentFiles
                <-> In p (map fst fileMap) /\ differs p = true)
  /\ (forall p, In p differentFiles ->
                In (Log LError
                      (DifferentHashes key p (Js.template (version packageObj))))
                  t1)
  /\ compare_and_report w key packageObj npmD ghD ghResponse fileMap
       dependenciesWithDifferences m
     = match differentFiles with
       | [] =>
           (Returned dependenciesWithDifferences, m,
            (t1 ++ [Log LInfo (AllHashesMatched key)])%list)
       | _ :: _ =>
           (Returned (dependenciesWithDifferences
                      ++ [(key, List.length differentFiles)])%list, m,
            (t1 ++ [Log LError
                      (FoundDifferent (List.length differentFiles) key)])%list)
       end
  /\ (forall m',
         report (dependenciesWithDifferences
                 ++ [(key, List.length differentFiles)])%list m'
         = (Returned tt, m',
            [Log LError
               (FinishedWithDifferences
                  ("Finished checking dependencies, found differences on the following packages:"
                   ++ newline ++ " "
                   ++ String.concat "" (map report_line dependenciesWithDifferences)
                   ++ "package " ++ dquote ++ key ++ dquote ++ " had "
                   ++ Js.String_of_nat (List.length differentFiles)
                   ++ " differences" ++ newline))])).
Proof.
  intros H.
  pose proof (compare_entries_completed _ _ _ _ _ _ _ _ _ _ _ _ H) as Hall.
  pose proof (compare_and_report_completed _ _ _ _ _ _ _
                dependenciesWithDifferences _ _ _ _ H) as Hreport.
  destruct (compare_entries_result _ _ _ _ _ _ _ _ _ _ _ H) as [Hd [_ Ht]].
  split; [rewrite Hd; now apply no_divergent_iff|].
  split; [intros p; rewrite Hd; apply filter_In|].
  split.
  - intros p Hp. rewrite Hd in Hp. apply filter_In in Hp. destruct Hp as [Hin Hp].
    rewrite Ht. now apply logged_divergent.
  - split; [exact Hreport|].
    intros m'. unfold report.
    rewrite length_app, Nat.add_comm. cbn [List.length Nat.add Nat.eqb].
    unfold logger_error, emit. cbv zeta. rewrite map_app. cbn [map].
    now rewrite concat_snoc.
Qed.


(** C7, as the code has it.  For every dependency whose comparison loop
    completes, [differentFiles] lists the divergent paths in the order in
    which the registry-side file map enumerates them; nothing sorts them. *)
Theorem mismatched_paths_in_enumeration_order (fileMap : list (string * bool))
    (m : Module) (differentFiles : list string) (m1 : Module) (t1 : list Event) :
  loop fileMap [] m = (Returned differentFiles, m1, t1) ->
  differentFiles = filter differs (map fst fileMap).
Proof.
  intros H. now destruct (compare_entries_result _ _ _ _ _ _ _ _ _ _ _ H).
Qed.

End ComparisonClaims.

Import Scenario.

Lemma completed_comparison_verdict_witness :
  compare_and_report (world index_differs) "left-pad" left_pad npm_dir gh_dir
    gh_response [("/index.js", true); ("/test/test.js", true)] [] loaded
  = (Returned [("left-pad", 1)], loaded,
     [Log LError (DifferentHashes "left-pad" "/index.js" "1.3.0");
      Log LError (FoundDifferent 1 "left-pad")]).
Proof.
  exact (proj1 (proj2 (proj2 (proj2
           (completed_comparison_verdict (world index_differs) "left-pad"
              left_pad npm_dir gh_dir gh_response
              [("/index.js", true); ("/test/test.js", true)] [] loaded
              ["/index.js"] loaded
              [Log LError (DifferentHashes "left-pad" "/index.js" "1.3.0")]
              eq_refl))))).
Defined.

(** C1, as the specification has it, fails: with [/index.js] differing
    between the archives the dependency is reported as mismatching and the
    path is logged when it is found, but the closing report reads
    [package "left-pad" had 1 differences] and holds no path. *)
Lemma closing_report_has_no_paths :
  verdicts (events_of (run index_differs)) = [("left-pad", MISMATCH)]
  /\ In (Log LError (DifferentHashes "left-pad" "/index.js" "1.3.0"))
       (events_of (run index_differs))
  /\ final_report (events_of (run index_differs))
     = Some ("Finished checking dependencies, found differences on the following packages:"
             ++ newline ++ " package " ++ dquote ++ "left-pad" ++ dquote
             ++ " had 1 differences" ++ newline)
  /\ match final_report (events_of (run index_differs)) with
     | Some text => Js.includes "/index.js" text
     | None => true
     end = false.
Proof. by_computation. Qed.



Lemma mismatched_paths_in_enumeration_order_witness :
  ["/a/z.js"; "/a.js"]
  = filter (divergent (world two_differ) left_pad npm_dir gh_dir gh_response)
      ["/a/z.js"; "/a.js"].
Proof.
  exact (mismatched_paths_in_enumeration_order (world two_differ) "left-pad"
           left_pad npm_dir gh_dir gh_response
           [("/a/z.js", true); ("/a.js", true)] started ["/a/z.js"; "/a.js"] started
           [Log LError (DifferentHashes "left-pad" "/a/z.js" "1.3.0");
            Log LError (DifferentHashes "left-pad" "/a.js" "1.3.0")]
           eq_refl).
Defined.

(** C7, as the specification has it, fails: the registry tarball holds the
    directory [a] with [z.js] in it, and the file [a.js]; the directory is
    listed first and walked first, both files differ from the release, and
    the mismatched paths come out as [/a/z.js] then [/a.js], which is not
    the sorted order. *)
Lemma mismatched_paths_not_sorted :
  as_readdir_lists two_differ_tree = true
  /\ getFileMap (world two_differ) npm_root started
     = (Returned [("/a/z.js", true); ("/a.js", true)], started, [])
  /\ result_of (compare_entries (world two_differ) "left-pad" left_pad npm_dir
                  gh_dir gh_response [("/a/z.js", true); ("/a.js", true)] []
                  started)
     = Returned ["/a/z.js"; "/a.js"]
  /\ sorted ["/a/z.js"; "/a.js"] = false
  /\ verdicts (events_of (run two_differ)) = [("left-pad", MISMATCH)].
Proof. by_computation. Qed.


(** ** The download of the source archive *)

Lemma first_char_2xx (statusCode : N) :
  (200 <= statusCode <= 299)%N ->
  Js.first_char (Js.String_of_N statusCode) = Some "2"%char.
Proof.
  intros H.
  assert (E : statusCode = N.of_nat (200 + (N.to_nat statusCode - 200))) by lia.
  assert (B : (N.to_nat statusCode - 200 < 100)%nat) by lia.
  rewrite E. revert B. generalize (N.to_nat statusCode - 200)%nat. intros k.
  do 100 (destruct k as [|k]; [intros _; reflexivity|]).
  intros B. exfalso. lia.
Qed.

Lemma responds_2xx_succeeds (w : World) (url : string) :
  responds_2xx w url -> failure w url = None.
Proof.
  intros [statusCode [E H]]. unfold failure.
  rewrite E, (first_char_2xx _ H).
  now replace (statusCode <? 200)%N with false by (symmetry; apply N.ltb_ge; lia).
Qed.

(** The call of [downloadFile] logs, sends the request and returns the
    promise; it leaves the module as it is. *)
Lemma downloadFile_run (w : World) (url fileName : string) (m : Module) :
  downloadFile w url fileName m
  = (Returned
       (downloadFile_settles w url (NodePath.resolve (cwd w) [TEMP_DIR m; fileName])),
     m, start_events url).
Proof. reflexivity. Qed.

(** The promise settles as [download_outcome] says, logging
    [settle_events]. *)
Lemma downloadFile_settles_run (w : World) (url destinationPath : string)
    (m : Module) :
  downloadFile_settles w url destinationPath m
  = (download_outcome w url destinationPath, m, settle_events w url destinationPath).
Proof.
  unfold downloadFile_settles, settle_events, download_outcome.
  destruct (write_stream_error w destinationPath) as [e|]; [reflexivity|].
  destruct (request_get w url) as [msg | statusCode |]; try reflexivity.
  destruct (statusCode <? 200)%N; [reflexivity|].
  destruct (Js.first_char (Js.String_of_N statusCode)) as [c|]; [|reflexivity].
  destruct c as [[] [] [] [] [] [] [] []]; reflexivity.
Qed.

(** When the file can be written, the promise is rejected with the failure
    of the request, fulfilled with the path, or never settled. *)
Lemma download_outcome_writable (w : World) (url destinationPath : string) :
  write_stream_error w destinationPath = None ->
  download_outcome w url destinationPath
  = match failure w url with
    | Some e => Thrown e
    | None =>
        if fulfilled w url destinationPath then Returned destinationPath
        else Halted Hangs
    end.
Proof.
  intros Hw. unfold fulfilled, download_outcome, failure. rewrite Hw.
  destruct (request_get w url) as [msg | statusCode |]; try reflexivity.
  destruct (statusCode <? 200)%N; [reflexivity|].
  destruct (Js.first_char (Js.String_of_N statusCode)) as [c|]; [|reflexivity].
  destruct c as [[] [] [] [] [] [] [] []]; reflexivity.
Qed.

Lemma responds_2xx_fulfilled (w : World) (url destinationPath : string) :
  write_stream_error w destinationPath = None ->
  responds_2xx w url -> fulfilled w url destinationPath = true.
Proof.
  intros Hw [statusCode [E H]]. unfold fulfilled, download_outcome.
  rewrite Hw, E, (first_char_2xx _ H).
  now replace (statusCode <? 200)%N with false by (symmetry; apply N.ltb_ge; lia).
Qed.

(** The download of the source archive, when both files can be written:
    the two calls, then the race. *)
Lemma downloadCompressedFileFromGitHub_run (w : World) (name : string)
    (version : option string) (packageInfo : PackageInfo) (m : Module)
    (githubUser : option string) (githubRepoName : string) :
  github_coordinates w packageInfo = Some (githubUser, githubRepoName) ->
  let first := tarURL githubUser githubRepoName version in
  let second := alternativeURL githubUser githubRepoName version in
  let file1 := gh_file w m name version "-gh.tgz" in
  let file2 := gh_file w m name version "-gh.tar.gz" in
  write_stream_error w file1 = None ->
  write_stream_error w file2 = None ->
  downloadCompressedFileFromGitHub w name version packageInfo m
  = (archive_of githubUser githubRepoName
       (any_of (first_settles_first w first second)
          (download_outcome w first file1) (download_outcome w second file2)),
     m, race_events w first second file1 file2).
Proof.
  intros Hc first second file1 file2 Hw1 Hw2.
  unfold downloadCompressedFileFromGitHub. unfold github_coordinates in Hc.
  destruct (repository_url packageInfo) as [u|]; [|discriminate Hc].
  destruct (url_pathname w u) as [pathname|]; [|discriminate Hc].
  destruct (nth_error (Js.split "/" pathname) 2) as [githubRepo|];
    [|discriminate Hc].
  assert (E1 : nth_error (Js.split "/" pathname) 1 = githubUser) by congruence.
  assert (E2 : NodePath.basename githubRepo (NodePath.extname githubRepo)
               = githubRepoName) by congruence.
  cbv zeta. rewrite E1, E2.
  fold first second. unfold bind at 1. rewrite downloadFile_run.
  unfold bind at 1. rewrite downloadFile_run.
  unfold bind, Promise_any, race_events, ret.
  fold (gh_file w m name version "-gh.tgz") (gh_file w m name version "-gh.tar.gz").
  fold file1 file2.
  destruct (first_settles_first w first second);
    rewrite !downloadFile_settles_run;
    rewrite ?(download_outcome_writable w first file1 Hw1),
      ?(download_outcome_writable w second file2 Hw2);
    destruct (failure w first), (failure w second),
      (fulfilled w first file1), (fulfilled w second file2);
    cbn [any_of archive_of app]; rewrite ?app_nil_r, <- ?app_assoc; reflexivity.
Qed.

(** C5, for downloads whose files can be written.  For the two candidate
    URLs of the source archive, [v<version>] then [<version>]: the fetch
    returns the file of the second candidate when it responds 2xx and the
    first is not fulfilled (it fails, or never answers), the file of the
    first when it responds 2xx and the second is not fulfilled, the file of
    the one that settles first when both respond 2xx, and when both fail it
    throws the array of the two failures, the first candidate's first. *)
Theorem source_archive_race (w : World) (name : string) (version : option string)
    (packageInfo : PackageInfo) (m : Module)
    (githubUser : option string) (githubRepoName : string) :
  github_coordinates w packageInfo = Some (githubUser, githubRepoName) ->
  let first := tarURL githubUser githubRepoName version in
  let second := alternativeURL githubUser githubRepoName version in
  let file1 := gh_file w m name version "-gh.tgz" in
  let file2 := gh_file w m name version "-gh.tar.gz" in
  write_stream_error w file1 = None ->
  write_stream_error w file2 = None ->
  let fetched path :=
    Returned {| gh_path := path; repo := githubRepoName; user := githubUser |} in
  let r := result_of (downloadCompressedFileFromGitHub w name version
                        packageInfo m) in
  (responds_2xx w second -> fulfilled w first file1 = false -> r = fetched file2)
  /\ (responds_2xx w first -> fulfilled w second file2 = false -> r = fetched file1)
  /\ (responds_2xx w first -> responds_2xx w second ->
      r = fetched (if first_settles_first w first second then file1 else file2))
  /\ (forall e1 e2,
         failure w first = Some e1 -> failure w second = Some e2 ->
         r = Thrown (Reasons [e1; e2])).
Proof.
  intros Hc first second file1 file2 Hw1 Hw2 fetched r.
  assert (Hr : r = archive_of githubUser githubRepoName
                     (any_of (first_settles_first w first second)
                        (download_outcome w first file1)
                        (download_outcome w second file2))).
  { subst r.
    now rewrite (downloadCompressedFileFromGitHub_run w name version packageInfo m
                   githubUser githubRepoName Hc Hw1 Hw2). }
  rewrite Hr. clear Hr r.
  rewrite (download_outcome_writable w first file1 Hw1),
    (download_outcome_writable w second file2 Hw2).
  conjuncts.
  - intros H2 H1.
    rewrite (responds_2xx_succeeds _ _ H2), (responds_2xx_fulfilled _ _ _ Hw2 H2), H1.
    now destruct (failure w first).
  - intros H1 H2.
    rewrite (responds_2xx_succeeds _ _ H1), (responds_2xx_fulfilled _ _ _ Hw1 H1), H2.
    now destruct (failure w second).
  - intros H1 H2.
    rewrite (responds_2xx_succeeds _ _ H1), (responds_2xx_fulfilled _ _ _ Hw1 H1),
      (responds_2xx_succeeds _ _ H2), (responds_2xx_fulfilled _ _ _ Hw2 H2).
    now destruct (first_settles_first w first second).
  - intros e1 e2 H1 H2. now rewrite H1, H2.
Qed.

Lemma source_archive_race_witness :
  result_of (downloadCompressedFileFromGitHub (world plain_tag) "left-pad"
               (Some "1.3.0") left_pad_info started)
  = Returned {| gh_path := "/tmp/dv/left-pad-1.3.0-gh.tar.gz";
                repo := "left-pad";
                user := Some "stevemao" |}.
Proof.
  refine (proj1 (source_archive_race (world plain_tag) "left-pad" (Some "1.3.0")
                   left_pad_info started (Some "stevemao") "left-pad" _ _ _) _ _).
  - vm_compute; reflexivity.
  - vm_compute; reflexivity.
  - vm_compute; reflexivity.
  - exists 200%N. split; [vm_compute; reflexivity | lia].
  - vm_compute; reflexivity.
Defined.

(** C5, as the specification has it, fails when a file of the downloads
    cannot be written: the write stream raises an error that nothing
    listens to, and the process ends, although the second candidate
    responds 200.  So it is when the scratch directory that [verify] is
    given is not there, and so it is for a package with a scoped name, whose
    files would lie in a directory that [verify] never makes. *)
Lemma unwritable_download_ends_the_process :
  let elsewhere :=
    {| REGISTRY_BASE_URL := "https://registry.npmjs.org";
       TEMP_DIR := "/nowhere";
       logger := "debug" |} in
  (responds_2xx (world plain_tag) (alternativeURL (Some "stevemao") "left-pad"
                                     (Some "1.3.0"))
   /\ failure (world plain_tag) (tarURL (Some "stevemao") "left-pad" (Some "1.3.0"))
      = Some (Error "404")
   /\ responds_2xx (world MoreScenarios.scoped)
        (alternativeURL (Some "scope") "pad" (Some "1.0.0"))
   /\ failure (world MoreScenarios.scoped)
        (tarURL (Some "scope") "pad" (Some "1.0.0"))
      = Some (Error "404"))
  /\ github_coordinates (world plain_tag) left_pad_info
     = Some (Some "stevemao", "left-pad")
  /\ gh_file (world plain_tag) elsewhere "left-pad" (Some "1.3.0") "-gh.tar.gz"
     = "/nowhere/left-pad-1.3.0-gh.tar.gz"
  /\ result_of (downloadCompressedFileFromGitHub (world plain_tag) "left-pad"
                  (Some "1.3.0") left_pad_info elsewhere)
     = Halted (Dies (Error "ENOENT: no such file or directory, open"))
  /\ github_coordinates (world MoreScenarios.scoped) MoreScenarios.scoped_info
     = Some (Some "scope", "pad")
  /\ gh_file (world MoreScenarios.scoped) started "@scope/pad" (Some "1.0.0")
       "-gh.tar.gz"
     = "/tmp/dv/@scope/pad-1.0.0-gh.tar.gz"
  /\ result_of (downloadCompressedFileFromGitHub (world MoreScenarios.scoped)
                  "@scope/pad" (Some "1.0.0") MoreScenarios.scoped_info started)
     = Halted (Dies (Error "ENOENT: no such file or directory, open"))
  /\ result_of (run MoreScenarios.scoped)
     = Halted (Dies (Error "ENOENT: no such file or directory, open")).
Proof.
  cbv zeta. split; [|by_computation].
  split; [exists 200%N; split; [vm_compute; reflexivity | lia]|].
  split; [vm_compute; reflexivity|].
  split; [exists 200%N; split; [vm_compute; reflexivity | lia]|].
  vm_compute; reflexivity.
Qed.

(** ** The module-level variables *)

Lemma respects_ret {A} (a : A) (m : Module) : respects (ret a) m.
Proof. split; [reflexivity | constructor]. Qed.

Lemma respects_throw {A} (e : Exn) (m : Module) : respects (@throw A e) m.
Proof. split; [reflexivity | constructor]. Qed.

Lemma respects_halt {A} (h : Halt) (m : Module) : respects (@halt A h) m.
Proof. split; [reflexivity | constructor]. Qed.

Lemma respects_settle {A} (r : Exn + A) (m : Module) : respects (settle r) m.
Proof. destruct r; [apply respects_throw | apply respects_ret]. Qed.

Lemma respects_emit (e : Event) (m : Module) :
  addressed_to (REGISTRY_BASE_URL m) e -> respects (emit e) m.
Proof. intros H. split; [reflexivity | now repeat constructor]. Qed.

Lemma respects_log (level : Level) (msg : Message) (m : Module) :
  respects (emit (Log level msg)) m.
Proof. now apply respects_emit. Qed.

Lemma respects_bind {A B} (c : M A) (f : A -> M B) (m : Module) :
  respects c m -> (forall a, respects (f a) m) -> respects (bind c f) m.
Proof.
  unfold respects, bind, module_of, events_of. intros [Hm Ht] Hf.
  destruct (c m) as [[[a | e | h] m1] t1]; cbn [fst snd] in *; subst m1.
  - specialize (Hf a). destruct (f a m) as [[r m2] t2]. cbn [fst snd] in *.
    destruct Hf as [-> Ht2]. split; [reflexivity | now apply Forall_app].
  - now split.
  - now split.
Qed.

(** The same, when what the first computation returns is known. *)
Lemma respects_bind_returned {A B} (c : M A) (f : A -> M B) (m : Module)
    (a : A) (t : list Event) :
  c m = (Returned a, m, t) ->
  Forall (addressed_to (REGISTRY_BASE_URL m)) t ->
  respects (f a) m -> respects (bind c f) m.
Proof.
  unfold respects, bind, module_of, events_of. intros -> Ht Hf.
  destruct (f a m) as [[r m2] t2]. cbn [fst snd] in *.
  destruct Hf as [-> Ht2]. split; [reflexivity | now apply Forall_app].
Qed.

Lemma respects_get {A} (f : Module -> M A) (m : Module) :
  respects (f m) m -> respects (bind get_module f) m.
Proof.
  unfold respects, bind, get_module, module_of, events_of.
  destruct (f m m) as [[r m2] t2]. exact (fun H => H).
Qed.

Lemma respects_try_catch {A} (c : M A) (h : Exn -> M A) (m : Module) :
  respects c m -> (forall e, respects (h e) m) -> respects (try_catch c h) m.
Proof.
  unfold respects, try_catch, module_of, events_of. intros [Hm Ht] Hh.
  destruct (c m) as [[[a | e | s] m1] t1]; cbn [fst snd] in *; subst m1.
  - now split.
  - specialize (Hh e). destruct (h e m) as [[r m2] t2]. cbn [fst snd] in *.
    destruct Hh as [-> Ht2]. split; [reflexivity | now apply Forall_app].
  - now split.
Qed.

Lemma respects_Promise_any {A} (p1 p2 : M A) (b : bool) (m : Module) :
  respects p1 m -> respects p2 m -> respects (Promise_any p1 p2 b) m.
Proof.
  unfold respects, Promise_any, module_of, events_of. intros [Hm1 Ht1] [Hm2 Ht2].
  destruct b; cbv iota.
  - destruct (p1 m) as [[r1 m1] t1]; cbn [fst snd] in *; subst m1.
    assert (H : forall r, fst (fst (p2 m)) = r ->
                Forall (addressed_to (REGISTRY_BASE_URL m)) (t1 ++ snd (p2 m)))
      by (intros; now apply Forall_app).
    destruct (p2 m) as [[r2 m2] t2]; cbn [fst snd] in *; subst m2.
    specialize (H r2 eq_refl).
    destruct r1 as [a1 | e1 | [|e1]], r2 as [a2 | e2 | [|e2]];
      cbn [fst snd]; now split.
  - destruct (p2 m) as [[r2 m2] t2]; cbn [fst snd] in *; subst m2.
    assert (H : forall r, fst (fst (p1 m)) = r ->
                Forall (addressed_to (REGISTRY_BASE_URL m)) (t2 ++ snd (p1 m)))
      by (intros; now apply Forall_app).
    destruct (p1 m) as [[r1 m1] t1]; cbn [fst snd] in *; subst m1.
    specialize (H r1 eq_refl).
    destruct r1 as [a1 | e1 | [|e1]], r2 as [a2 | e2 | [|e2]];
      cbn [fst snd]; now split.
Qed.

Ltac respects_step :=
  first
    [ apply respects_get
    | apply respects_bind; [|intros ?]
    | apply respects_try_catch; [|intros ?]
    | apply respects_ret
    | apply respects_throw
    | apply respects_halt
    | apply respects_settle
    | apply respects_log ].

Section Respect.

Variable w : World.

Lemma respects_getPackageInfoFromRegistry (dependency : string) (m : Module) :
  respects (getPackageInfoFromRegistry w dependency) m.
Proof.
  unfold getPackageInfoFromRegistry. repeat respects_step.
  apply respects_emit. apply prefix_base.
Qed.

Lemma respects_downloadFile_settles (url destinationPath : string) (m : Module) :
  respects (downloadFile_settles w url destinationPath) m.
Proof.
  unfold downloadFile_settles, logger_debug, logger_error.
  destruct (write_stream_error w destinationPath) as [e|]; [respects_step|].
  destruct (request_get w url) as [msg | statusCode |]; [repeat respects_step| |respects_step].
  destruct (statusCode <? 200)%N; [respects_step|].
  destruct (Js.first_char (Js.String_of_N statusCode)) as [c|];
    [|repeat respects_step].
  destruct c as [[] [] [] [] [] [] [] []]; repeat respects_step.
Qed.

Lemma start_events_addressed (url : string) (m : Module) :
  prefix (REGISTRY_BASE_URL m ++ "/") url = true
  \/ prefix "https://github.com/" url = true ->
  Forall (addressed_to (REGISTRY_BASE_URL m)) (start_events url).
Proof.
  intros H. unfold start_events.
  constructor; [exact I|]. constructor; [exact H|]. constructor.
Qed.

Lemma respects_getPackageLatestVersion (name : string) (m : Module) :
  respects (getPackageLatestVersion name) m.
Proof.
  unfold getPackageLatestVersion. apply respects_get.
  apply respects_bind; [apply respects_emit, prefix_base|intros _].
  cbn. apply respects_throw.
Qed.

Lemma respects_downloadCompressedFileFromNpm (name : string)
    (version : option string) (m : Module) :
  respects (downloadCompressedFileFromNpm w name version) m.
Proof.
  unfold downloadCompressedFileFromNpm. apply respects_bind.
  - destruct (negb (Js.truthy version));
      [apply respects_getPackageLatestVersion | apply respects_ret].
  - intros v. apply respects_get.
    eapply respects_bind_returned; [apply downloadFile_run| |].
    + apply start_events_addressed. left. apply prefix_base.
    + apply respects_bind; [apply respects_downloadFile_settles|intros ?].
      respects_step.
Qed.

Lemma respects_getFileMap (path : string) (m : Module) :
  respects (getFileMap w path) m.
Proof. unfold getFileMap, findFiles. repeat respects_step. Qed.

Lemma respects_decompress (src dest : string) (m : Module) :
  respects (decompress w src dest) m.
Proof.
  unfold decompress. destruct (targz_decompress w src dest); respects_step.
Qed.

Lemma respects_downloadCompressedFileFromGitHub (name : string)
    (version : option string) (packageInfo : PackageInfo) (m : Module) :
  respects (downloadCompressedFileFromGitHub w name version packageInfo) m.
Proof.
  unfold downloadCompressedFileFromGitHub.
  destruct (repository_url packageInfo) as [u|]; [|respects_step].
  destruct (url_pathname w u) as [pathname|]; [|respects_step].
  destruct (nth_error (Js.split "/" pathname) 2) as [githubRepo|];
    [|respects_step].
  cbv zeta.
  eapply respects_bind_returned; [apply downloadFile_run| |].
  { apply start_events_addressed. right. apply prefix_append. }
  eapply respects_bind_returned; [apply downloadFile_run| |].
  { apply start_events_addressed. right. apply prefix_append. }
  apply respects_bind; [|intros ?; respects_step].
  apply respects_Promise_any; apply respects_downloadFile_settles.
Qed.

Lemma respects_on_dependency_error (key : string) (e : Exn) (m : Module) :
  respects (on_dependency_error key e) m.
Proof.
  unfold on_dependency_error, logger_error.
  destruct e as [msg | msg | items]; try respects_step.
  destruct items as [|e0 items]; [respects_step|].
  destruct (Js.truthy (message_of e0)
            && Js.includes "404" (Js.template (message_of e0)));
    respects_step.
Qed.

Lemma respects_compare_entries (key : string) (packageObj : PackageObj)
    (npmD ghD : string) (ghR : GitHubDownload) (entries : list (string * bool)) :
  forall acc m,
    respects (compare_entries w key packageObj npmD ghD ghR entries acc) m.
Proof.
  induction entries as [|[mapKey value] rest IH]; intros acc m;
    cbn [compare_entries]; [respects_step|].
  unfold getHash, fileExists, logger_warn, logger_error.
  apply respects_bind; [respects_step | intros hashNpm].
  apply respects_bind; [respects_step | intros ghFileExists].
  destruct (negb ghFileExists).
  - apply respects_bind; [respects_step | intros _; apply IH].
  - apply respects_bind; [respects_step | intros hashGH].
    destruct (negb (hashNpm =? hashGH)%string); [|apply IH].
    apply respects_bind; [respects_step | intros _; apply IH].
Qed.

Lemma respects_compare_and_report (key : string) (packageObj : PackageObj)
    (npmD ghD : string) (ghR : GitHubDownload) (fileMap : list (string * bool))
    (dwd : list (string * nat)) (m : Module) :
  respects (compare_and_report w key packageObj npmD ghD ghR fileMap dwd) m.
Proof.
  unfold compare_and_report, report_differences, logger_info, logger_error.
  apply respects_try_catch; [|intros e; repeat respects_step].
  apply respects_bind; [apply respects_compare_entries | intros differentFiles].
  destruct (List.length differentFiles =? 0)%nat; repeat respects_step.
Qed.

Lemma respects_verify_dependency (key : string) (packageObj : PackageObj)
    (dwd : list (string * nat)) (m : Module) :
  respects (verify_dependency w key packageObj dwd) m.
Proof.
  unfold verify_dependency, logger_info, logger_debug.
  apply respects_bind; [apply respects_getPackageInfoFromRegistry | intros info].
  apply respects_try_catch.
  2:{ intros e. apply respects_bind;
        [apply respects_on_dependency_error | intros _; respects_step]. }
  apply respects_bind; [respects_step | intros _].
  apply respects_bind;
    [apply respects_downloadCompressedFileFromGitHub | intros ghResponse].
  apply respects_bind;
    [apply respects_downloadCompressedFileFromNpm | intros result].
  apply respects_get. cbv zeta.
  destruct (String.eqb (gh_path ghResponse) "" || String.eqb (npm_path result) "");
    [respects_step|].
  apply respects_bind; [respects_step | intros _].
  apply respects_bind; [apply respects_decompress | intros _].
  apply respects_bind; [apply respects_decompress | intros _].
  apply respects_bind; [apply respects_getFileMap | intros fileMapFromNPM].
  apply respects_bind; [apply respects_getFileMap | intros fileMapFromGH].
  apply respects_compare_and_report.
Qed.

Lemma respects_verify_entries (entries : list (string * PackageObj)) :
  forall dwd m, respects (verify_entries w entries dwd) m.
Proof.
  induction entries as [|[key packageObj] rest IH]; intros dwd m;
    cbn [verify_entries]; [respects_step|].
  apply respects_bind; [apply respects_verify_dependency | intros dwd'; apply IH].
Qed.

Lemma respects_check_lockfile (lockfilePath : string) (m : Module) :
  respects (check_lockfile w lockfilePath) m.
Proof.
  unfold check_lockfile. apply respects_bind; [respects_step | intros lockfile].
  destruct (dependencies lockfile) as [entries|]; [|respects_step].
  apply respects_bind; [apply respects_verify_entries | intros dwd].
  unfold report, logger_info, logger_error.
  destruct (List.length dwd =? 0)%nat; respects_step.
Qed.

(** [verify] assigns the module-level variables, the logger when [pino]
    accepts the level, and then runs from them; when [pino] refuses the
    level its error is thrown before anything else is done. *)
Lemma verify_configured (lockfilePath : string) (logLevel : option string)
    (tempDirectory : string) (registryUrl : option string) (m : Module) :
  verify w lockfilePath logLevel tempDirectory registryUrl m
  = match pino w (level_of logLevel) with
    | Some e =>
        (Thrown e, configured w logLevel tempDirectory registryUrl m, [])
    | None =>
        check_lockfile w lockfilePath
          (configured w logLevel tempDirectory registryUrl m)
    end.
Proof.
  unfold verify, configured. fold (level_of logLevel).
  unfold bind at 1 2 3.
  destruct (Js.truthy registryUrl), (pino w (level_of logLevel)) as [e|];
    cbn [set_REGISTRY_BASE_URL set_TEMP_DIR set_logger ret throw REGISTRY_BASE_URL
           TEMP_DIR logger];
    try reflexivity;
    fold (check_lockfile w lockfilePath);
    match goal with
    | |- context [check_lockfile w lockfilePath ?m'] =>
        destruct (check_lockfile w lockfilePath m') as [[r m2] t]
    end; reflexivity.
Qed.

Lemma configured_twice (logLevel : option string) (tempDirectory : string)
    (registryUrl : option string) (m : Module) :
  configured w logLevel tempDirectory registryUrl
    (configured w logLevel tempDirectory registryUrl m)
  = configured w logLevel tempDirectory registryUrl m.
Proof.
  unfold configured. cbn [REGISTRY_BASE_URL TEMP_DIR logger].
  now destruct (Js.truthy registryUrl), (pino w (level_of logLevel)).
Qed.

(** What a call of [verify] leaves in the module. *)
Lemma verify_module (lockfilePath : string) (logLevel : option string)
    (tempDirectory : string) (registryUrl : option string) (m : Module) :
  module_of (verify w lockfilePath logLevel tempDirectory registryUrl m)
  = configured w logLevel tempDirectory registryUrl m.
Proof.
  rewrite verify_configured.
  destruct (pino w (level_of logLevel)) as [e|]; [reflexivity|].
  apply respects_check_lockfile.
Qed.

End Respect.

Lemma bind_ret {A B} (a : A) (f : A -> M B) (m : Module) :
  bind (ret a) f m = f a m.
Proof. unfold bind, ret. now destruct (f a m) as [[r m2] t2]. Qed.

(** What a computation does first is what the computation it starts with
    does first. *)
Lemma first_event_bind {A B} (c : M A) (f : A -> M B) (m : Module) (e : Event) :
  (exists t, events_of (c m) = e :: t) ->
  exists t, events_of (bind c f m) = e :: t.
Proof.
  unfold bind, events_of. intros [t Ht].
  destruct (c m) as [[[a | e' | h] m1] t1]; cbn [snd] in Ht; subst t1;
    [destruct (f a m1) as [[r m2] t2]|..]; cbn [snd app]; eexists; reflexivity.
Qed.

(** When the lock file lists a dependency, the first thing that a call
    without a registry URL does is to ask the registry of the module for
    the document of the first one. *)
Lemma first_request (w : World) (lockfilePath : string)
    (logLevel : option string) (tempDirectory : string) (m : Module)
    (lockfile : Lockfile) (key : string) (packageObj : PackageObj)
    (rest : list (string * PackageObj)) :
  pino w (level_of logLevel) = None ->
  require_lockfile w (NodePath.resolve (cwd w) [lockfilePath]) = inr lockfile ->
  dependencies lockfile = Some ((key, packageObj) :: rest) ->
  exists t,
    events_of (verify w lockfilePath logLevel tempDirectory None m)
    = Get ViaRp (REGISTRY_BASE_URL m ++ "/" ++ key) :: t.
Proof.
  intros Hpino Hlock Hdeps. rewrite verify_configured, Hpino.
  unfold check_lockfile. rewrite Hlock. unfold settle.
  rewrite bind_ret, Hdeps.
  apply first_event_bind. cbn [verify_entries].
  apply first_event_bind. unfold verify_dependency.
  apply first_event_bind. unfold getPackageInfoFromRegistry.
  unfold bind at 1. unfold get_module at 1.
  match goal with
  | |- context [bind (emit ?ev) ?k ?m'] =>
      destruct (first_event_bind (emit ev) k m' ev) as [t Ht];
        [eexists; reflexivity|];
        destruct (bind (emit ev) k m') as [[r m2] t2]
  end.
  cbn [events_of snd app] in *. subst t2.
  cbn [configured Js.truthy REGISTRY_BASE_URL]. eexists; reflexivity.
Qed.

(** C10.  The registry base URL is a variable of the module: once [verify]
    has been called with a registry URL (and the process has not ended),
    the variable holds that URL; a later call without a registry URL runs
    as a call that names the earlier URL would, and it sends every registry
    request to that URL (the requests that do not go to the registry go to
    GitHub).  When its lock file lists a dependency, the first thing it
    does is to ask that URL for the document of the first one, where the
    same call in a freshly loaded module asks the public registry: unless
    the earlier URL is that of the public registry, the two runs differ. *)
Theorem registry_url_outlives_the_run (w : World) (registryUrl : string)
    (lockfilePath1 : string) (logLevel1 : option string) (tempDirectory1 : string)
    (lockfilePath2 : string) (logLevel2 : option string) (tempDirectory2 : string)
    (m0 : Module) :
  registryUrl <> "" ->
  let earlier := verify w lockfilePath1 logLevel1 tempDirectory1
                   (Some registryUrl) m0 in
  (forall e, result_of earlier <> Halted (Dies e)) ->
  let m1 := module_of earlier in
  let later := verify w lockfilePath2 logLevel2 tempDirectory2 None m1 in
  let fresh := verify w lockfilePath2 logLevel2 tempDirectory2 None loaded in
  REGISTRY_BASE_URL m1 = registryUrl
  /\ later = verify w lockfilePath2 logLevel2 tempDirectory2 (Some registryUrl) m1
  /\ Forall (addressed_to registryUrl) (events_of later)
  /\ (forall lockfile key packageObj rest,
         pino w (level_of logLevel2) = None ->
         require_lockfile w (NodePath.resolve (cwd w) [lockfilePath2])
         = inr lockfile ->
         dependencies lockfile = Some ((key, packageObj) :: rest) ->
         (exists t,
             events_of later = Get ViaRp (registryUrl ++ "/" ++ key) :: t)
         /\ (exists t,
                events_of fresh
                = Get ViaRp ("https://registry.npmjs.org" ++ "/" ++ key) :: t)
         /\ (registryUrl <> "https://registry.npmjs.org" ->
             events_of later <> events_of fresh)).
Proof.
  intros Hurl earlier _ m1 later fresh.
  assert (Htruthy : Js.truthy (Some registryUrl) = true).
  { cbn. now destruct (String.eqb_spec registryUrl ""). }
  assert (H1 : REGISTRY_BASE_URL m1 = registryUrl).
  { subst m1 earlier. rewrite verify_module. unfold configured.
    now rewrite Htruthy. }
  assert (Hsame : configured w logLevel2 tempDirectory2 None m1
                  = configured w logLevel2 tempDirectory2 (Some registryUrl) m1).
  { unfold configured. rewrite Htruthy. cbn [Js.truthy Js.template].
    now rewrite H1. }
  split; [exact H1|]. split; [|split].
  - subst later. now rewrite !verify_configured, Hsame.
  - subst later. rewrite verify_configured.
    destruct (pino w (level_of logLevel2)) as [e|]; [constructor|].
    destruct (respects_check_lockfile w lockfilePath2
                (configured w logLevel2 tempDirectory2 None m1)) as [_ Ht].
    cbn [configured Js.truthy REGISTRY_BASE_URL] in Ht. now rewrite H1 in Ht.
  - intros lockfile key packageObj rest Hpino Hlock Hdeps.
    destruct (first_request w lockfilePath2 logLevel2 tempDirectory2 m1
                lockfile key packageObj rest Hpino Hlock Hdeps) as [t Ht].
    destruct (first_request w lockfilePath2 logLevel2 tempDirectory2 loaded
                lockfile key packageObj rest Hpino Hlock Hdeps) as [t' Ht'].
    rewrite H1 in Ht. cbn [REGISTRY_BASE_URL loaded] in Ht'.
    fold later in Ht. fold fresh in Ht'.
    split; [now exists t|]. split; [now exists t'|].
    intros Hother E. rewrite Ht, Ht' in E. injection E as E _.
    apply Hother.
    exact (append_cancel_r registryUrl "https://registry.npmjs.org" ("/" ++ key) E).
Qed.

Lemma registry_url_outlives_the_run_witness :
  let earlier := verify (world mirrored) "package-lock.json" None tmp
                   (Some mirror) loaded in
  let later := verify (world mirrored) "package-lock.json" None tmp None
                 (module_of earlier) in
  let fresh := verify (world mirrored) "package-lock.json" None tmp None loaded in
  (REGISTRY_BASE_URL (module_of earlier) = mirror
   /\ later = verify (world mirrored) "package-lock.json" None tmp (Some mirror)
                (module_of earlier)
   /\ Forall (addressed_to mirror) (events_of later)
   /\ (forall lockfile key packageObj rest,
          pino (world mirrored) (level_of None) = None ->
          require_lockfile (world mirrored)
            (NodePath.resolve (cwd (world mirrored)) ["package-lock.json"])
          = inr lockfile ->
          dependencies lockfile = Some ((key, packageObj) :: rest) ->
          (exists t, events_of later = Get ViaRp (mirror ++ "/" ++ key) :: t)
          /\ (exists t,
                 events_of fresh
                 = Get ViaRp ("https://registry.npmjs.org" ++ "/" ++ key) :: t)
          /\ (mirror <> "https://registry.npmjs.org" ->
              events_of later <> events_of fresh)))
  /\ requests (events_of later)
     = [(ViaRp, "https://npm.example.com/left-pad");
        (ViaRequestGet, "https://github.com/stevemao/left-pad/archive/v1.3.0.tar.gz");
        (ViaRequestGet, "https://github.com/stevemao/left-pad/archive/1.3.0.tar.gz");
        (ViaRequestGet, "https://npm.example.com/left-pad/-/left-pad-1.3.0.tgz")]
  /\ requests (events_of fresh)
     = [(ViaRp, "https://registry.npmjs.org/left-pad");
        (ViaRequestGet, "https://github.com/stevemao/left-pad/archive/v1.3.0.tar.gz");
        (ViaRequestGet, "https://github.com/stevemao/left-pad/archive/1.3.0.tar.gz");
        (ViaRequestGet, "https://registry.npmjs.org/left-pad/-/left-pad-1.3.0.tgz")]
  /\ verdicts (events_of later) = [("left-pad", OK)].
Proof.
  split; [|by_computation].
  apply (registry_url_outlives_the_run (world mirrored) mirror
           "package-lock.json" None tmp "package-lock.json" None tmp loaded).
  - discriminate.
  - vm_compute. intros e H. discriminate H.
Defined.

(** ** Two runs under two schedulers *)

Lemma verdicts_app (t1 t2 : list Event) :
  verdicts (t1 ++ t2) = (verdicts t1 ++ verdicts t2)%list.
Proof.
  induction t1 as [|e t1 IH]; [reflexivity|].
  cbn [app verdicts]. destruct (verdict_of e); cbn [app]; now rewrite IH.
Qed.

Lemma verdicts_settle_events (w : World) (url destinationPath : string) :
  verdicts (settle_events w url destinationPath) = [].
Proof.
  unfold settle_events.
  destruct (download_outcome w url destinationPath); try reflexivity.
  now destruct (request_get w url).
Qed.

Lemma alike_refl {A} (x : Result A * Module * list Event) : alike x x.
Proof.
  destruct x as [[[a | e | h] m] t]; repeat split.
Qed.

Lemma alike_bind {A B} (c1 c2 : M A) (f1 f2 : A -> M B) (m1 m2 : Module) :
  alike (c1 m1) (c2 m2) -> (forall a m, alike (f1 a m) (f2 a m)) ->
  alike (bind c1 f1 m1) (bind c2 f2 m2).
Proof.
  unfold alike, bind, result_of, module_of, events_of. intros [Hr [Hm Ht]] Hf.
  destruct (c1 m1) as [[r1 m1'] t1], (c2 m2) as [[r2 m2'] t2].
  cbn [fst snd] in *. subst m2'.
  destruct r1 as [a1 | e1 | h1], r2 as [a2 | e2 | h2]; cbn in Hr;
    try contradiction; subst; cbn [fst snd]; try now repeat split.
  specialize (Hf a2 m1').
  destruct (f1 a2 m1') as [[r1 n1] u1], (f2 a2 m1') as [[r2 n2] u2].
  cbn [fst snd] in *. destruct Hf as [Hr' [Hm' Hu]].
  repeat split; [exact Hr' | exact Hm' |]. now rewrite !verdicts_app, Ht, Hu.
Qed.

Lemma alike_try_catch {A} (c1 c2 : M A) (h1 h2 : Exn -> M A) (m1 m2 : Module) :
  alike (c1 m1) (c2 m2) -> (forall e m, alike (h1 e m) (h2 e m)) ->
  alike (try_catch c1 h1 m1) (try_catch c2 h2 m2).
Proof.
  unfold alike, try_catch, result_of, module_of, events_of.
  intros [Hr [Hm Ht]] Hh.
  destruct (c1 m1) as [[r1 m1'] t1], (c2 m2) as [[r2 m2'] t2].
  cbn [fst snd] in *. subst m2'.
  destruct r1 as [a1 | e1 | s1], r2 as [a2 | e2 | s2]; cbn in Hr;
    try contradiction; subst; cbn [fst snd]; try now repeat split.
  specialize (Hh e2 m1').
  destruct (h1 e2 m1') as [[r1 n1] u1], (h2 e2 m1') as [[r2 n2] u2].
  cbn [fst snd] in *. destruct Hh as [Hr' [Hm' Hu]].
  repeat split; [exact Hr' | exact Hm' |]. now rewrite !verdicts_app, Ht, Hu.
Qed.

(** The race of two promises that report no verdict ends alike under two
    orders of settlement, unless both promises are fulfilled. *)
Lemma alike_Promise_any {A} (p1 p2 : M A) (b b' : bool) (m : Module) :
  module_of (p1 m) = m -> verdicts (events_of (p1 m)) = [] ->
  module_of (p2 m) = m -> verdicts (events_of (p2 m)) = [] ->
  (forall a1 a2,
      result_of (p1 m) = Returned a1 -> result_of (p2 m) = Returned a2 ->
      b = b') ->
  alike (Promise_any p1 p2 b m) (Promise_any p1 p2 b' m).
Proof.
  unfold alike, Promise_any, result_of, module_of, events_of.
  intros Hm1 Hv1 Hm2 Hv2 Hb.
  destruct (p1 m) as [[r1 n1] t1] eqn:E1. destruct (p2 m) as [[r2 n2] t2] eqn:E2.
  cbn [fst snd] in *. subst n1 n2.
  destruct r1 as [a1 | e1 | [|e1]], r2 as [a2 | e2 | [|e2]];
    destruct b, b'; cbv iota;
    repeat (rewrite ?E1, ?E2; cbv iota beta);
    cbn [fst snd any_of same_outcome];
    rewrite ?verdicts_app, ?Hv1, ?Hv2;
    try (now repeat split);
    exfalso; specialize (Hb _ _ eq_refl eq_refl); discriminate Hb.
Qed.

Lemma alike_bind_returned {A B} (c1 c2 : M A) (f1 f2 : A -> M B) (m : Module)
    (a : A) (t : list Event) :
  c1 m = (Returned a, m, t) -> c2 m = (Returned a, m, t) ->
  alike (f1 a m) (f2 a m) -> alike (bind c1 f1 m) (bind c2 f2 m).
Proof.
  unfold alike, bind, result_of, module_of, events_of. intros -> -> H.
  destruct (f1 a m) as [[r1 n1] u1], (f2 a m) as [[r2 n2] u2].
  cbn [fst snd] in *. destruct H as [Hr [Hm Hu]].
  repeat split; [exact Hr | exact Hm |]. now rewrite !verdicts_app, Hu.
Qed.

Lemma fulfilled_returned (w : World) (url destinationPath path : string) :
  download_outcome w url destinationPath = Returned path ->
  fulfilled w url destinationPath = true.
Proof. unfold fulfilled. now intros ->. Qed.

Section Schedulers.

Variable w : World.
Variable first_wins : string -> string -> bool.
Hypothesis Hwinners : same_winners w first_wins.

Notation w' := (with_scheduler w first_wins).

Lemma alike_downloadCompressedFileFromGitHub (name : string)
    (version : option string) (packageInfo : PackageInfo) (m : Module) :
  alike (downloadCompressedFileFromGitHub w' name version packageInfo m)
    (downloadCompressedFileFromGitHub w name version packageInfo m).
Proof.
  unfold downloadCompressedFileFromGitHub.
  change (url_pathname w') with (url_pathname w).
  destruct (repository_url packageInfo) as [u|]; [|apply alike_refl].
  destruct (url_pathname w u) as [pathname|]; [|apply alike_refl].
  destruct (nth_error (Js.split "/" pathname) 2) as [githubRepo|];
    [|apply alike_refl].
  cbv zeta.
  eapply alike_bind_returned;
    [apply downloadFile_run | exact (downloadFile_run w _ _ _) |].
  eapply alike_bind_returned;
    [apply downloadFile_run | exact (downloadFile_run w _ _ _) |].
  apply alike_bind; [|intros path m3; apply alike_refl].
  change (first_settles_first w') with first_wins.
  change (cwd w') with (cwd w).
  change (downloadFile_settles w') with (downloadFile_settles w).
  apply alike_Promise_any;
    rewrite ?downloadFile_settles_run; try reflexivity;
    try apply verdicts_settle_events.
  intros a1 a2 H1 H2. cbn [result_of fst] in H1, H2.
  eapply Hwinners; eapply fulfilled_returned; [exact H1 | exact H2].
Qed.

Lemma alike_verify_dependency (key : string) (packageObj : PackageObj)
    (dwd : list (string * nat)) (m : Module) :
  alike (verify_dependency w' key packageObj dwd m)
    (verify_dependency w key packageObj dwd m).
Proof.
  unfold verify_dependency.
  apply alike_bind; [apply alike_refl | intros packageInfo m1].
  apply alike_try_catch; [|intros e m2; apply alike_refl].
  apply alike_bind; [apply alike_refl | intros u m2].
  apply alike_bind;
    [apply alike_downloadCompressedFileFromGitHub | intros ghResponse m3].
  apply alike_refl.
Qed.

Lemma alike_verify_entries (entries : list (string * PackageObj)) :
  forall dwd m,
    alike (verify_entries w' entries dwd m) (verify_entries w entries dwd m).
Proof.
  induction entries as [|[key packageObj] rest IH]; intros dwd m;
    cbn [verify_entries]; [apply alike_refl|].
  apply alike_bind; [apply alike_verify_dependency | intros dwd' m'; apply IH].
Qed.

Lemma alike_check_lockfile (lockfilePath : string) (m : Module) :
  alike (check_lockfile w' lockfilePath m) (check_lockfile w lockfilePath m).
Proof.
  unfold check_lockfile.
  apply alike_bind; [apply alike_refl | intros lockfile m1].
  destruct (dependencies lockfile) as [entries|]; [|apply alike_refl].
  apply alike_bind; [apply alike_verify_entries | intros dwd m2; apply alike_refl].
Qed.

(** A run under the other scheduler, from the module as a run leaves it or
    from the module as that run found it, ends as that run and reports
    its verdicts. *)
Lemma alike_verify (lockfilePath : string) (logLevel : option string)
    (tempDirectory : string) (registryUrl : option string) (m0 m : Module) :
  m = m0
  \/ m = module_of (verify w lockfilePath logLevel tempDirectory registryUrl m0) ->
  alike (verify w' lockfilePath logLevel tempDirectory registryUrl m)
    (verify w lockfilePath logLevel tempDirectory registryUrl m0).
Proof.
  intros Hm.
  assert (E : configured w' logLevel tempDirectory registryUrl m
              = configured w logLevel tempDirectory registryUrl m0).
  { change (configured w') with (configured w).
    destruct Hm as [-> | ->]; [reflexivity|].
    rewrite verify_module. apply configured_twice. }
  rewrite !verify_configured, E. change (pino w') with (pino w).
  destruct (pino w (level_of logLevel)) as [e|]; [apply alike_refl|].
  apply alike_check_lockfile.
Qed.

End Schedulers.




(** ** The loop over the lock file *)

(** A registry that rejects the metadata request of a dependency ends the
    loop there: the rejection is thrown out of it. *)
Lemma metadata_rejection_leaves_the_loop (w : World) (key : string)
    (packageObj : PackageObj) (rest : list (string * PackageObj))
    (dwd : list (string * nat)) (m : Module) (e : Exn) :
  rp w (REGISTRY_BASE_URL m ++ "/" ++ key) = inl e ->
  verify_entries w ((key, packageObj) :: rest) dwd m
  = (Thrown e, m, [Get ViaRp (REGISTRY_BASE_URL m ++ "/" ++ key)]).
Proof.
  intros H. cbn [verify_entries].
  unfold bind at 1. unfold verify_dependency. unfold bind at 1.
  unfold getPackageInfoFromRegistry, bind, get_module, emit, settle.
  rewrite H. reflexivity.
Qed.

(** C2 does not hold of the code.  The lock file lists a package that the
    registry does not know before [left-pad]: the rejection of the metadata
    request is not caught, [verify] is rejected with it, no outcome is
    logged for either package, and [left-pad], which verifies when it is
    listed alone, is never looked at.  A failure of the downloads, which
    are inside the [try], is caught: it gives the package the outcome
    [ERROR] and [left-pad] is verified after it. *)
Theorem metadata_failure_aborts_the_run :
  run unknown_package
  = (Thrown (Error "404 - Not Found"), started,
     [Get ViaRp "https://registry.npmjs.org/no-such-package"])
  /\ verdicts (events_of (run unknown_package)) = []
  /\ verdicts (events_of (run equal_archives)) = [("left-pad", OK)]
  /\ result_of (run no_release) = Returned tt
  /\ verdicts (events_of (run no_release))
     = [("right-pad", ERROR); ("left-pad", OK)].
Proof. by_computation. Qed.

(** C3, as the code has it.  For every dependency whose registry document
    names no repository URL: nothing is downloaded, the dependency is
    reported through the error branch of the loop, with the message of the
    error thrown for it, which is the outcome [ERROR], never [OK] or
    [MISMATCH]; the closing report is left as it was and the loop goes on
    with the next entry. *)
Theorem no_repository_is_reported_as_error (w : World) (key : string)
    (packageObj : PackageObj) (rest : list (string * PackageObj))
    (dependenciesWithDifferences : list (string * nat)) (m : Module)
    (packageInfo : PackageInfo) :
  rp w (REGISTRY_BASE_URL m ++ "/" ++ key) = inr packageInfo ->
  repository_url packageInfo = None ->
  let outcome :=
    [Get ViaRp (REGISTRY_BASE_URL m ++ "/" ++ key);
     Log LInfo (StartingChecks key);
     Log LError
       (ErrorProcessing key "package info doesn't contains repository info")] in
  verify_dependency w key packageObj dependenciesWithDifferences m
  = (Returned dependenciesWithDifferences, m, outcome)
  /\ verdicts outcome = [(key, ERROR)]
  /\ verify_entries w ((key, packageObj) :: rest) dependenciesWithDifferences m
     = match verify_entries w rest dependenciesWithDifferences m with
       | (r, m', t) => (r, m', (outcome ++ t)%list)
       end.
Proof.
  intros Hrp Hrepo outcome.
  assert (Hdep : verify_dependency w key packageObj dependenciesWithDifferences m
                 = (Returned dependenciesWithDifferences, m, outcome)).
  { unfold verify_dependency. unfold bind at 1.
    unfold getPackageInfoFromRegistry, bind at 1, get_module.
    unfold bind at 1. unfold emit at 1. unfold settle at 1. rewrite Hrp.
    cbn [ret]. unfold try_catch, bind at 1. unfold logger_info at 1, emit at 1.
    unfold bind at 1. unfold downloadCompressedFileFromGitHub. rewrite Hrepo.
    reflexivity. }
  split; [exact Hdep|]. split; [reflexivity|].
  cbn [verify_entries]. unfold bind at 1. rewrite Hdep.
  destruct (verify_entries w rest dependenciesWithDifferences m) as [[r m'] t].
  reflexivity.
Qed.

Lemma no_repository_is_reported_as_error_witness :
  verify_dependency (world no_repository) "lonely" {| version := Some "2.0.0" |}
    [] started
  = (Returned [], started,
     [Get ViaRp "https://registry.npmjs.org/lonely";
      Log LInfo (StartingChecks "lonely");
      Log LError
        (ErrorProcessing "lonely" "package info doesn't contains repository info")]).
Proof.
  refine (proj1 (no_repository_is_reported_as_error (world no_repository) "lonely"
                   {| version := Some "2.0.0" |} [("left-pad", left_pad)] []
                   started no_repository_info _ _)); vm_compute; reflexivity.
Defined.

(** C3, as the specification has it, fails: a package whose registry
    document names no repository gets the outcome [ERROR], not [SKIPPED];
    the package listed after it is verified. *)
Lemma no_repository_is_not_skipped :
  verdicts (events_of (run no_repository))
  = [("lonely", ERROR); ("left-pad", OK)]
  /\ ~ In ("lonely", SKIPPED) (verdicts (events_of (run no_repository))).
Proof.
  split; [vm_compute; reflexivity|].
  vm_compute. intros [H | [H | []]]; discriminate H.
Qed.

(** C9 does not hold of the code.  For an entry of the lock file without a
    version the candidate URLs of the source archive are built from the
    text [undefined], but the registry side does not resolve the version
    to [dist-tags.latest]: [getPackageLatestVersion] awaits the callback
    client [request], reads ['dist-tags'] off the request object and throws
    a [TypeError], so no tarball URL is built, in any world and for any
    package, whatever the registry document says. *)
Theorem absent_version_is_not_resolved (w : World) (name : string) (m : Module) :
  downloadCompressedFileFromNpm w name None m
  = (Thrown (TypeError "Cannot read property 'latest' of undefined"), m,
     [Get ViaRequest (REGISTRY_BASE_URL m ++ "/" ++ name)])
  /\ tarURL (Some "stevemao") "left-pad" None
     = "https://github.com/stevemao/left-pad/archive/vundefined.tar.gz"
  /\ alternativeURL (Some "stevemao") "left-pad" None
     = "https://github.com/stevemao/left-pad/archive/undefined.tar.gz"
  /\ dist_tags left_pad_info = Some {| latest := Some "1.3.0" |}
  /\ verdicts (events_of (run no_version)) = [("left-pad", ERROR)]
  /\ In (Log LError
           (ErrorProcessing "left-pad" "Cannot read property 'latest' of undefined"))
       (events_of (run no_version)).
Proof.
  split; [reflexivity|]. by_computation.
Qed.

(** * Further properties of the engine *)

(** ** Computations that report no verdict *)

Lemma quiet_ret {A} (P : A -> Prop) (E : Exn -> Prop) (a : A) (m : Module) :
  P a -> quiet P E (ret a) m.
Proof. intros H. repeat split. exact H. Qed.

Lemma quiet_throw {A} (P : A -> Prop) (E : Exn -> Prop) (e : Exn) (m : Module) :
  E e -> quiet P E (@throw A e) m.
Proof. intros H. repeat split. exact H. Qed.

Lemma quiet_settle {A} (P : A -> Prop) (E : Exn -> Prop) (r : Exn + A) (m : Module) :
  match r with inl e => E e | inr a => P a end -> quiet P E (settle r) m.
Proof. destruct r; [apply quiet_throw | apply quiet_ret]. Qed.

Lemma quiet_emit (P : unit -> Prop) (E : Exn -> Prop) (e : Event) (m : Module) :
  verdict_of e = None -> P tt -> quiet P E (emit e) m.
Proof.
  intros He H. unfold quiet, emit, module_of, events_of, result_of.
  cbn [fst snd verdicts]. now rewrite He.
Qed.

Lemma quiet_bind {A B} (P : A -> Prop) (Q : B -> Prop) (E : Exn -> Prop)
    (c : M A) (f : A -> M B) (m : Module) :
  quiet P E c m -> (forall a, P a -> quiet Q E (f a) m) ->
  quiet Q E (bind c f) m.
Proof.
  unfold quiet, bind, module_of, events_of, result_of. intros [Hm [Hv Hr]] Hf.
  destruct (c m) as [[[a | e | h] m1] t1]; cbn [fst snd] in *; subst m1.
  - specialize (Hf a Hr). destruct (f a m) as [[r m2] t2]. cbn [fst snd] in *.
    destruct Hf as [-> [Hv2 Hr2]].
    rewrite verdicts_app, Hv, Hv2. now repeat split.
  - now repeat split.
  - contradiction.
Qed.

Lemma quiet_get {A} (P : A -> Prop) (E : Exn -> Prop) (f : Module -> M A)
    (m : Module) :
  quiet P E (f m) m -> quiet P E (bind get_module f) m.
Proof.
  unfold quiet, bind, get_module, module_of, events_of, result_of.
  destruct (f m m) as [[r m2] t2]. exact (fun H => H).
Qed.

Lemma quiet_weaken {A} (P P' : A -> Prop) (E E' : Exn -> Prop) (c : M A)
    (m : Module) :
  (forall a, P a -> P' a) -> (forall e, E e -> E' e) ->
  quiet P E c m -> quiet P' E' c m.
Proof.
  unfold quiet. intros HP HE [Hm [Hv Hr]]. repeat split; [exact Hm | exact Hv|].
  destruct (result_of (c m)); auto.
Qed.

(** The race of two promises that settle settles, and it is not rejected
    with an empty array. *)
Lemma quiet_Promise_any {A} (P : A -> Prop) (p1 p2 : M A) (b : bool) (m : Module) :
  quiet P (fun _ => True) p1 m -> quiet P (fun _ => True) p2 m ->
  quiet P (fun e => e <> Reasons []) (Promise_any p1 p2 b) m.
Proof.
  unfold quiet, Promise_any, module_of, events_of, result_of.
  intros [Hm1 [Hv1 Hr1]] [Hm2 [Hv2 Hr2]].
  destruct (p1 m) as [[r1 n1] t1] eqn:E1. destruct (p2 m) as [[r2 n2] t2] eqn:E2.
  cbn [fst snd] in *. subst n1 n2.
  destruct r1 as [a1 | e1 | h1], r2 as [a2 | e2 | h2]; try contradiction;
    destruct b; cbv iota;
    repeat (rewrite ?E1, ?E2; cbv iota beta);
    cbn [fst snd any_of];
    rewrite ?verdicts_app, ?Hv1, ?Hv2;
    repeat split; try assumption; discriminate.
Qed.

(** [path.resolve] gives no empty path. *)
Lemma resolve_not_empty (cwd : string) (args : list string) :
  NodePath.resolve cwd args <> "".
Proof. unfold NodePath.resolve. cbv zeta. cbn [append]. discriminate. Qed.

(** A download whose file can be written and whose request is answered
    settles: with the path of the file, or with an [Error]. *)
Lemma quiet_downloadFile_settles (w : World) (url destinationPath : string)
    (m : Module) :
  answered w -> write_stream_error w destinationPath = None ->
  quiet (fun path => path = destinationPath) (fun e => e <> Reasons [])
    (downloadFile_settles w url destinationPath) m.
Proof.
  intros Hanswered Hw. unfold quiet. rewrite downloadFile_settles_run.
  cbn [module_of events_of result_of fst snd].
  repeat split; [apply verdicts_settle_events|].
  unfold download_outcome. rewrite Hw. specialize (Hanswered url).
  destruct (request_get w url) as [msg | statusCode |];
    [discriminate | | contradiction].
  replace (statusCode <? 200)%N with false by (symmetry; apply N.ltb_ge; lia).
  destruct (Js.first_char (Js.String_of_N statusCode)) as [c|]; [|discriminate].
  destruct c as [[] [] [] [] [] [] [] []]; try discriminate. reflexivity.
Qed.

Lemma quiet_bind_returned {A B} (Q : B -> Prop) (E : Exn -> Prop)
    (c : M A) (f : A -> M B) (m : Module) (a : A) (t : list Event) :
  c m = (Returned a, m, t) -> verdicts t = [] ->
  quiet Q E (f a) m -> quiet Q E (bind c f) m.
Proof.
  unfold quiet, bind, module_of, events_of, result_of. intros -> Hv H.
  destruct (f a m) as [[r m2] t2]. cbn [fst snd] in *.
  destruct H as [-> [Hv2 Hr2]]. rewrite verdicts_app, Hv, Hv2. now repeat split.
Qed.

Section Quiet.

Variable w : World.
Hypothesis Hw : no_empty_rejection w.
Hypothesis Hanswered : answered w.

Notation handled := (fun e : Exn => e <> Reasons []).

Lemma quiet_getPackageLatestVersion (name : string) (m : Module) :
  quiet (fun _ : option string => False) handled (getPackageLatestVersion name) m.
Proof.
  unfold getPackageLatestVersion. apply quiet_get.
  apply (quiet_bind (fun _ => True)); [now apply quiet_emit|intros _ _].
  cbn. now apply quiet_throw.
Qed.

Lemma quiet_downloadCompressedFileFromNpm (name : string)
    (version : option string) (m : Module) :
  write_stream_error w
    (NodePath.resolve (cwd w)
       [TEMP_DIR m; name ++ "-" ++ Js.template version ++ "-npm.tgz"]) = None ->
  quiet (fun result => npm_path result <> "") handled
    (downloadCompressedFileFromNpm w name version) m.
Proof.
  intros Hfile. unfold downloadCompressedFileFromNpm.
  apply (quiet_bind (fun v => v = version)).
  - destruct (negb (Js.truthy version)).
    + apply (quiet_weaken (fun _ => False) _ handled handled);
        [intros a [] | auto | apply quiet_getPackageLatestVersion].
    + now apply quiet_ret.
  - intros v ->. apply quiet_get.
    eapply quiet_bind_returned; [apply downloadFile_run | reflexivity |].
    apply (quiet_bind (fun p => p <> "")).
    + eapply quiet_weaken; [| |apply (quiet_downloadFile_settles w _ _ m Hanswered Hfile)].
      * intros a ->. apply resolve_not_empty.
      * auto.
    + intros p Hp. now apply quiet_ret.
Qed.

Lemma quiet_downloadCompressedFileFromGitHub (name : string)
    (version : option string) (packageInfo : PackageInfo) (m : Module) :
  write_stream_error w (gh_file w m name version "-gh.tgz") = None ->
  write_stream_error w (gh_file w m name version "-gh.tar.gz") = None ->
  quiet (fun ghResponse => gh_path ghResponse <> "") handled
    (downloadCompressedFileFromGitHub w name version packageInfo) m.
Proof.
  intros Hfile1 Hfile2. unfold downloadCompressedFileFromGitHub.
  destruct (repository_url packageInfo) as [u|]; [|now apply quiet_throw].
  destruct (url_pathname w u) as [pathname|]; [|now apply quiet_throw].
  destruct (nth_error (Js.split "/" pathname) 2) as [githubRepo|];
    [|now apply quiet_throw].
  cbv zeta.
  eapply quiet_bind_returned; [apply downloadFile_run | reflexivity |].
  eapply quiet_bind_returned; [apply downloadFile_run | reflexivity |].
  apply (quiet_bind (fun p => p <> "")).
  - apply quiet_Promise_any.
    + eapply quiet_weaken;
        [| |apply (quiet_downloadFile_settles w _ _ m Hanswered Hfile1)].
      * intros a ->. apply resolve_not_empty.
      * auto.
    + eapply quiet_weaken;
        [| |apply (quiet_downloadFile_settles w _ _ m Hanswered Hfile2)].
      * intros a ->. apply resolve_not_empty.
      * auto.
  - intros p Hp. now apply quiet_ret.
Qed.

Lemma quiet_decompress (src dest : string) (m : Module) :
  quiet (fun _ => True) handled (decompress w src dest) m.
Proof.
  unfold decompress. destruct (targz_decompress w src dest) as [e|] eqn:E.
  - apply quiet_throw. intros ->. now apply (proj1 Hw src dest).
  - now apply quiet_ret.
Qed.

Lemma quiet_getFileMap (path : string) (m : Module) :
  quiet (fun _ => True) handled (getFileMap w path) m.
Proof.
  unfold getFileMap, findFiles.
  apply (quiet_bind (fun _ => True)); [|intros files _; now apply quiet_ret].
  apply (quiet_bind (fun _ => True)); [|intros nodes _; now apply quiet_ret].
  apply quiet_settle. destruct (tree w path) as [e|nodes] eqn:E; [|exact I].
  intros ->. now apply (proj2 Hw path).
Qed.

End Quiet.

Lemma quiet_compare_entries (w : World) (key : string) (packageObj : PackageObj)
    (npmD ghD : string) (ghR : GitHubDownload) (entries : list (string * bool)) :
  forall acc m,
    quiet (fun _ => True) (fun _ => True)
      (compare_entries w key packageObj npmD ghD ghR entries acc) m.
Proof.
  induction entries as [|[mapKey value] rest IH]; intros acc m;
    cbn [compare_entries]; [now apply quiet_ret|].
  unfold getHash, fileExists, logger_warn, logger_error.
  apply (quiet_bind (fun _ => True));
    [apply quiet_settle; now destruct (sha1File w _) | intros hashNpm _].
  apply (quiet_bind (fun _ => True)); [now apply quiet_ret | intros ghFileExists _].
  destruct (negb ghFileExists).
  - apply (quiet_bind (fun _ => True)); [now apply quiet_emit | intros _ _; apply IH].
  - apply (quiet_bind (fun _ => True));
      [apply quiet_settle; now destruct (sha1File w _) | intros hashGH _].
    destruct (negb (hashNpm =? hashGH)%string); [|apply IH].
    apply (quiet_bind (fun _ => True)); [now apply quiet_emit | intros _ _; apply IH].
Qed.

(** What the inner [try] does when its loop throws. *)
Lemma compare_and_report_thrown (w : World) (key : string) (packageObj : PackageObj)
    (npmD ghD : string) (ghR : GitHubDownload) (fileMap : list (string * bool))
    (dwd : list (string * nat)) (m : Module) (e : Exn) (m1 : Module)
    (t1 : list Event) :
  compare_entries w key packageObj npmD ghD ghR fileMap [] m = (Thrown e, m1, t1) ->
  compare_and_report w key packageObj npmD ghD ghR fileMap dwd m
  = (Returned dwd, m1,
     (t1 ++ [Log LError (ErrorVerifying key (message_of e))])%list).
Proof.
  intros H. unfold compare_and_report, try_catch, bind. rewrite H. reflexivity.
Qed.

(** The inner [try] always returns, with one verdict of the dependency:
    [OK] or [ERROR] with the closing report left as it was, or [MISMATCH]
    with the dependency added to it. *)
Lemma settles_compare_and_report (w : World) (key : string)
    (packageObj : PackageObj) (npmD ghD : string) (ghR : GitHubDownload)
    (fileMap : list (string * bool)) (dwd : list (string * nat)) (m : Module) :
  settles key dwd (compare_and_report w key packageObj npmD ghD ghR fileMap dwd) m.
Proof.
  destruct (quiet_compare_entries w key packageObj npmD ghD ghR fileMap [] m)
    as [Hm [Hv Hr]].
  unfold module_of, events_of, result_of in Hm, Hv, Hr. unfold settles.
  destruct (compare_entries w key packageObj npmD ghD ghR fileMap [] m)
    as [[[differentFiles | e | h] m1] t1] eqn:E; cbn [fst snd] in *; subst m1.
  - rewrite (compare_and_report_completed _ _ _ _ _ _ _ dwd _ _ _ _ E).
    destruct differentFiles as [|p rest];
      unfold module_of, events_of, result_of; cbn [fst snd].
    + split; [reflexivity|]. exists OK. rewrite verdicts_app, Hv. now split.
    + split; [reflexivity|]. exists MISMATCH. rewrite verdicts_app, Hv.
      split; [reflexivity|]. exists (List.length (p :: rest)).
      split; [cbn; lia | reflexivity].
  - rewrite (compare_and_report_thrown _ _ _ _ _ _ _ dwd _ _ _ _ E).
    unfold module_of, events_of, result_of; cbn [fst snd].
    split; [reflexivity|]. exists ERROR. rewrite verdicts_app, Hv. now split.
  - contradiction.
Qed.

Lemma settles_bind {A} (P : A -> Prop) (key : string) (dwd : list (string * nat))
    (c : M A) (f : A -> M (list (string * nat))) (m : Module) :
  quiet P (fun e => e <> Reasons []) c m ->
  (forall a, P a -> settles key dwd (f a) m) ->
  settles key dwd (bind c f) m.
Proof.
  unfold quiet, settles, bind, module_of, events_of, result_of.
  intros [Hm [Hv Hr]] Hf.
  destruct (c m) as [[[a | e | h] m1] t1]; cbn [fst snd] in *; subst m1.
  - specialize (Hf a Hr). destruct (f a m) as [[r m2] t2]. cbn [fst snd] in *.
    destruct Hf as [-> Hr2]. split; [reflexivity|].
    rewrite verdicts_app, Hv. exact Hr2.
  - now repeat split.
  - contradiction.
Qed.

Lemma settles_get (key : string) (dwd : list (string * nat))
    (f : Module -> M (list (string * nat))) (m : Module) :
  settles key dwd (f m) m -> settles key dwd (bind get_module f) m.
Proof.
  unfold settles, bind, get_module, module_of, events_of, result_of.
  destruct (f m m) as [[r m2] t2]. exact (fun H => H).
Qed.

(** The handler of the outer [catch] reports [ERROR] for what it can
    handle. *)
Lemma on_dependency_error_handles (key : string) (e : Exn) (m : Module) :
  e <> Reasons [] ->
  exists msg,
    on_dependency_error key e m = (Returned tt, m, [Log LError msg])
    /\ verdict_of (Log LError msg) = Some (key, ERROR).
Proof.
  intros He. unfold on_dependency_error, logger_error, emit.
  destruct e as [msg | msg | items]; try (eexists; split; reflexivity).
  destruct items as [|e0 items]; [now elim He|].
  destruct (Js.truthy (message_of e0)
            && Js.includes "404" (Js.template (message_of e0)));
    eexists; split; reflexivity.
Qed.

(** A body that settles, under the outer [catch]: one verdict, and the
    loop goes on. *)
Lemma caught_settles (key : string) (dwd : list (string * nat))
    (body : M (list (string * nat))) (m : Module) :
  settles key dwd body m ->
  exists after t st,
    try_catch body (fun e => on_dependency_error key e ;; ret dwd) m
    = (Returned after, m, t)
    /\ verdicts t = [(key, st)]
    /\ closes key st dwd after.
Proof.
  intros [Hm Hr]. unfold try_catch.
  unfold module_of, result_of, events_of in *.
  destruct (body m) as [[[after | e | h] m1] t1]; cbn [fst snd] in *; subst m1.
  - destruct Hr as [st [Hv Hc]]. now exists after, t1, st.
  - destruct Hr as [He Hv].
    destruct (on_dependency_error_handles key e m He) as [msg [Hh Hmsg]].
    unfold bind. rewrite Hh. cbn [ret].
    exists dwd, (t1 ++ [Log LError msg] ++ [])%list, ERROR.
    split; [reflexivity|]. split; [|reflexivity].
    rewrite verdicts_app, Hv. cbn [app verdicts]. now rewrite Hmsg.
  - contradiction.
Qed.

(** The metadata request, when the registry answers it. *)
Lemma getPackageInfoFromRegistry_served {B} (w : World) (key : string)
    (f : PackageInfo -> M B) (m : Module) (packageInfo : PackageInfo) :
  rp w (REGISTRY_BASE_URL m ++ "/" ++ key) = inr packageInfo ->
  bind (getPackageInfoFromRegistry w key) f m
  = match f packageInfo m with
    | (r, m2, t2) => (r, m2, Get ViaRp (REGISTRY_BASE_URL m ++ "/" ++ key) :: t2)
    end.
Proof.
  intros Hrp. unfold bind at 1.
  unfold getPackageInfoFromRegistry. unfold bind at 1. unfold get_module at 1.
  unfold bind at 1. unfold emit at 1. unfold settle at 1. rewrite Hrp.
  cbn [ret]. destruct (f packageInfo m) as [[r m2] t2]. reflexivity.
Qed.

(** Once its metadata request is answered, a dependency whose downloads
    settle gets exactly one verdict and the loop goes on. *)
Lemma verify_dependency_settles (w : World) (key : string)
    (packageObj : PackageObj) (dwd : list (string * nat)) (m : Module)
    (packageInfo : PackageInfo) :
  no_empty_rejection w -> answered w ->
  Forall (fun path => write_stream_error w path = None)
    (download_files w m (key, packageObj)) ->
  rp w (REGISTRY_BASE_URL m ++ "/" ++ key) = inr packageInfo ->
  exists after t st,
    verify_dependency w key packageObj dwd m = (Returned after, m, t)
    /\ verdicts t = [(key, st)]
    /\ closes key st dwd after.
Proof.
  intros Hw Hanswered Hfiles Hrp.
  unfold download_files in Hfiles. cbn [map fst snd] in Hfiles.
  inversion Hfiles as [|? ? Hf1 Hfiles1]; subst.
  inversion Hfiles1 as [|? ? Hf2 Hfiles2]; subst.
  inversion Hfiles2 as [|? ? Hf3 _]; subst.
  unfold verify_dependency.
  rewrite (getPackageInfoFromRegistry_served w key _ m packageInfo Hrp).
  match goal with
  | |- context [try_catch ?body _ m] =>
      assert (Hbody : settles key dwd body m)
  end.
  { unfold logger_info, logger_debug.
    apply (settles_bind (fun _ => True)); [now apply quiet_emit | intros _ _].
    apply (settles_bind (fun ghResponse => gh_path ghResponse <> ""));
      [now apply quiet_downloadCompressedFileFromGitHub | intros ghResponse Hgh].
    apply (settles_bind (fun result => npm_path result <> ""));
      [now apply quiet_downloadCompressedFileFromNpm | intros result Hnpm].
    apply settles_get. cbv zeta.
    apply String.eqb_neq in Hgh, Hnpm. rewrite Hgh, Hnpm. cbn [orb].
    apply (settles_bind (fun _ => True)); [now apply quiet_emit | intros _ _].
    apply (settles_bind (fun _ => True)); [now apply quiet_decompress | intros _ _].
    apply (settles_bind (fun _ => True)); [now apply quiet_decompress | intros _ _].
    apply (settles_bind (fun _ => True)); [now apply quiet_getFileMap | intros fm _].
    apply (settles_bind (fun _ => True)); [now apply quiet_getFileMap | intros fm' _].
    apply settles_compare_and_report. }
  destruct (caught_settles key dwd _ m Hbody) as [after [t [st [E [Hv Hc]]]]].
  rewrite E.
  exists after, (Get ViaRp (REGISTRY_BASE_URL m ++ "/" ++ key) :: t), st.
  now repeat split.
Qed.

(** ** The loop over the lock file, when the registry answers *)

Lemma closes_not_skipped (key : string) (st : Status)
    (before after : list (string * nat)) :
  closes key st before after -> st <> SKIPPED.
Proof. destruct st; [discriminate | discriminate | intros [] | discriminate]. Qed.

(** With every metadata request answered and every download settling, the
    loop returns: each entry has been given one verdict, in the order of
    the entries, and the array of the closing report has grown by the
    mismatching ones. *)
Lemma verify_entries_settles (w : World) (Hw : no_empty_rejection w)
    (Hanswered : answered w) (entries : list (string * PackageObj)) :
  forall before m,
    writable w m entries ->
    metadata_served w m entries ->
    exists after t added,
      verify_entries w entries before m = (Returned after, m, t)
      /\ map fst (verdicts t) = map fst entries
      /\ Forall (fun v => snd v <> SKIPPED) (verdicts t)
      /\ after = (before ++ added)%list
      /\ map fst added = map fst (filter is_mismatch (verdicts t))
      /\ Forall (fun entry => 0 < snd entry) added.
Proof.
  induction entries as [|[key packageObj] rest IH]; intros before m Hfiles Hserved.
  - exists before, [], []. cbn. rewrite app_nil_r. now repeat split.
  - inversion Hserved as [|? ? [packageInfo Hrp] Hrest]; subst.
    inversion Hfiles as [|? ? Hfile Hfiles']; subst.
    destruct (verify_dependency_settles w key packageObj before m packageInfo
                Hw Hanswered Hfile Hrp)
      as [after1 [t1 [st [Hdep [Hv1 Hc]]]]].
    destruct (IH after1 m Hfiles' Hrest)
      as [after [t2 [added [Hloop [Hkeys [Hns [Hafter [Hadded Hpos]]]]]]]].
    cbn [verify_entries]. unfold bind. rewrite Hdep, Hloop.
    assert (Hst : st <> SKIPPED) by exact (closes_not_skipped _ _ _ _ Hc).
    destruct st; cbn [closes] in Hc.
    + subst after1.
      exists after, (t1 ++ t2)%list, added.
      rewrite verdicts_app, Hv1. cbn [app map fst filter is_mismatch snd].
      repeat split; auto. now rewrite Hkeys.
    + destruct Hc as [count [Hcount ->]].
      exists after, (t1 ++ t2)%list, ((key, count) :: added).
      rewrite verdicts_app, Hv1. cbn [app map fst filter is_mismatch snd].
      repeat split; auto.
      * now rewrite Hkeys.
      * now rewrite Hafter, <- app_assoc.
      * now rewrite Hadded.
    + now elim Hst.
    + subst after1.
      exists after, (t1 ++ t2)%list, added.
      rewrite verdicts_app, Hv1. cbn [app map fst filter is_mismatch snd].
      repeat split; auto. now rewrite Hkeys.
Qed.

(** X1.  When the registry answers the metadata request of every entry of
    the lock file, every download request is answered and the files of
    the downloads can be written (and neither the extraction nor the walk
    of a tree rejects with an empty array), the loop over the entries
    returns, and it has reported exactly one verdict for each entry, in
    the order of the entries; the verdict is [OK], [MISMATCH] or
    [ERROR]. *)
Theorem every_dependency_gets_one_verdict (w : World)
    (entries : list (string * PackageObj))
    (dependenciesWithDifferences : list (string * nat)) (m : Module) :
  no_empty_rejection w ->
  answered w ->
  writable w m entries ->
  metadata_served w m entries ->
  exists after t,
    verify_entries w entries dependenciesWithDifferences m = (Returned after, m, t)
    /\ map fst (verdicts t) = map fst entries
    /\ Forall (fun v => snd v = OK \/ snd v = MISMATCH \/ snd v = ERROR)
         (verdicts t).
Proof.
  intros Hw Hanswered Hfiles Hserved.
  destruct (verify_entries_settles w Hw Hanswered entries
              dependenciesWithDifferences m Hfiles Hserved)
    as [after [t [added [Hloop [Hkeys [Hns _]]]]]].
  exists after, t. split; [exact Hloop|]. split; [exact Hkeys|].
  revert Hns. apply Forall_impl. intros [key st] H. cbn [snd] in *.
  destruct st; auto. now elim H.
Qed.

(** X2.  Under the same conditions, the array behind the closing report has
    grown by one entry for each [MISMATCH] verdict, in the order of the
    verdicts, and each entry carries a positive count. *)
Theorem closing_report_lists_the_mismatches (w : World)
    (entries : list (string * PackageObj))
    (dependenciesWithDifferences : list (string * nat)) (m : Module) :
  no_empty_rejection w ->
  answered w ->
  writable w m entries ->
  metadata_served w m entries ->
  exists added,
    result_of (verify_entries w entries dependenciesWithDifferences m)
    = Returned (dependenciesWithDifferences ++ added)%list
    /\ map fst added
       = map fst (filter is_mismatch
                    (verdicts (events_of (verify_entries w entries
                                            dependenciesWithDifferences m))))
    /\ Forall (fun entry => 0 < snd entry) added.
Proof.
  intros Hw Hanswered Hfiles Hserved.
  destruct (verify_entries_settles w Hw Hanswered entries
              dependenciesWithDifferences m Hfiles Hserved)
    as [after [t [added [Hloop [_ [_ [Hafter [Hadded Hpos]]]]]]]].
  exists added. rewrite Hloop. cbn [result_of events_of fst snd]. subst after.
  now repeat split.
Qed.

(** X3.  When the logger accepts the level, the lock file loads, the
    registry answers every metadata request, every download request is
    answered and the files of the downloads can be written (and neither
    the extraction nor the walk of a tree rejects with an empty array),
    [verify] is fulfilled, and its last logger call says that no
    differences were found exactly when no verdict is [MISMATCH]: [ERROR]
    verdicts do not show in the closing report. *)
Theorem errors_do_not_show_in_the_closing_report (w : World)
    (lockfilePath : string) (logLevel : option string) (tempDirectory : string)
    (registryUrl : option string) (m0 : Module)
    (entries : list (string * PackageObj)) :
  no_empty_rejection w ->
  answered w ->
  pino w (level_of logLevel) = None ->
  require_lockfile w (NodePath.resolve (cwd w) [lockfilePath])
  = inr {| dependencies := Some entries |} ->
  writable w (configured w logLevel tempDirectory registryUrl m0) entries ->
  metadata_served w (configured w logLevel tempDirectory registryUrl m0) entries ->
  exists t closing,
    verify w lockfilePath logLevel tempDirectory registryUrl m0
    = (Returned tt, configured w logLevel tempDirectory registryUrl m0,
       (t ++ [closing])%list)
    /\ map fst (verdicts t) = map fst entries
    /\ (filter is_mismatch (verdicts t) = [] ->
        closing = Log LInfo FinishedNoDifferences)
    /\ (filter is_mismatch (verdicts t) <> [] ->
        exists text, closing = Log LError (FinishedWithDifferences text)).
Proof.
  intros Hw Hanswered Hpino Hlock Hfiles Hserved.
  destruct (verify_entries_settles w Hw Hanswered entries [] _ Hfiles Hserved)
    as [after [t [added [Hloop [Hkeys [_ [Hafter [Hadded _]]]]]]]].
  rewrite verify_configured, Hpino. unfold check_lockfile, bind, settle.
  rewrite Hlock. cbn [ret dependencies]. rewrite Hloop.
  cbn [app] in Hafter. subst after. unfold report, logger_info, logger_error, emit.
  destruct added as [|entry added].
  - exists t, (Log LInfo FinishedNoDifferences). cbn [List.length Nat.eqb].
    repeat split; auto.
    intros Hne. cbn [map] in Hadded.
    destruct (filter is_mismatch (verdicts t)); [now elim Hne | discriminate].
  - cbn [List.length Nat.eqb]. eexists t, _.
    split; [reflexivity|]. split; [exact Hkeys|]. split.
    + intros Hnil. rewrite Hnil in Hadded. discriminate.
    + intros _. eexists. reflexivity.
Qed.

Import MoreScenarios.

Lemma scenario_no_empty_rejection (s : Setup) : no_empty_rejection (world s).
Proof.
  split.
  - intros src dest. discriminate.
  - intros root. cbn. destruct (lookup root (trees s)); discriminate.
Qed.

(** A scenario whose table holds no informational status answers every
    request. *)
Lemma scenario_answered (s : Setup) :
  forallb (fun entry => (200 <=? snd entry)%N) (statuses s) = true ->
  answered (world s).
Proof.
  intros H url. cbn [request_get world].
  induction (statuses s) as [|[u c] table IH]; [cbn; lia|].
  cbn [forallb snd] in H. apply andb_prop in H. destruct H as [Hc Htable].
  cbn [lookup]. destruct (String.eqb u url); [now apply N.leb_le | now apply IH].
Qed.

Lemma no_release_served :
  metadata_served (world no_release) started
    [("right-pad", {| version := Some "0.1.0" |}); ("left-pad", left_pad)].
Proof.
  repeat constructor; eexists; vm_compute; reflexivity.
Defined.

Lemma no_release_writable :
  writable (world no_release) started
    [("right-pad", {| version := Some "0.1.0" |}); ("left-pad", left_pad)].
Proof.
  repeat constructor; vm_compute; reflexivity.
Defined.

Lemma every_dependency_gets_one_verdict_witness :
  exists after t,
    verify_entries (world no_release)
      [("right-pad", {| version := Some "0.1.0" |}); ("left-pad", left_pad)]
      [] started
    = (Returned after, started, t)
    /\ map fst (verdicts t) = ["right-pad"; "left-pad"]
    /\ Forall (fun v => snd v = OK \/ snd v = MISMATCH \/ snd v = ERROR)
         (verdicts t).
Proof.
  exact (every_dependency_gets_one_verdict (world no_release)
           [("right-pad", {| version := Some "0.1.0" |}); ("left-pad", left_pad)]
           [] started (scenario_no_empty_rejection no_release)
           (scenario_answered no_release eq_refl)
           no_release_writable no_release_served).
Defined.

Lemma index_differs_served :
  metadata_served (world index_differs) started [("left-pad", left_pad)].
Proof.
  repeat constructor; eexists; vm_compute; reflexivity.
Defined.

Lemma index_differs_writable :
  writable (world index_differs) started [("left-pad", left_pad)].
Proof.
  repeat constructor; vm_compute; reflexivity.
Defined.

Lemma closing_report_lists_the_mismatches_witness :
  exists added,
    result_of (verify_entries (world index_differs) [("left-pad", left_pad)]
                 [] started)
    = Returned ([] ++ added)%list
    /\ map fst added
       = map fst (filter is_mismatch
                    (verdicts (events_of
                                 (verify_entries (world index_differs)
                                    [("left-pad", left_pad)] [] started))))
    /\ Forall (fun entry => 0 < snd entry) added.
Proof.
  exact (closing_report_lists_the_mismatches (world index_differs)
           [("left-pad", left_pad)] [] started
           (scenario_no_empty_rejection index_differs)
           (scenario_answered index_differs eq_refl)
           index_differs_writable index_differs_served).
Defined.

Lemma errors_do_not_show_in_the_closing_report_witness :
  exists t closing,
    run no_release = (Returned tt, started, (t ++ [closing])%list)
    /\ map fst (verdicts t) = ["right-pad"; "left-pad"]
    /\ (filter is_mismatch (verdicts t) = [] ->
        closing = Log LInfo FinishedNoDifferences)
    /\ (filter is_mismatch (verdicts t) <> [] ->
        exists text, closing = Log LError (FinishedWithDifferences text)).
Proof.
  refine (errors_do_not_show_in_the_closing_report (world no_release)
            "package-lock.json" None tmp None loaded
            [("right-pad", {| version := Some "0.1.0" |}); ("left-pad", left_pad)]
            (scenario_no_empty_rejection no_release)
            (scenario_answered no_release eq_refl) _ _
            no_release_writable no_release_served); vm_compute; reflexivity.
Defined.

(** ** A hash that cannot be read *)

(** X4.  When a hash that the comparison loop asks for is refused, the loop
    throws, and the inner [catch] turns this into the verdict [ERROR]: the
    dependency is not added to the closing report, whatever mismatches the
    loop had found and logged before. *)
Theorem refused_hash_hides_the_mismatches (w : World) (key : string)
    (packageObj : PackageObj)
    (npmDecompressedDestination githubDecompressedDestination : string)
    (ghResponse : GitHubDownload) (fileMap : list (string * bool))
    (dependenciesWithDifferences : list (string * nat)) (m : Module) :
  forallb (hashable w packageObj npmDecompressedDestination
             githubDecompressedDestination ghResponse) (map fst fileMap) = false ->
  exists e t1,
    compare_entries w key packageObj npmDecompressedDestination
      githubDecompressedDestination ghResponse fileMap [] m
    = (Thrown e, m, t1)
    /\ compare_and_report w key packageObj npmDecompressedDestination
         githubDecompressedDestination ghResponse fileMap
         dependenciesWithDifferences m
       = (Returned dependenciesWithDifferences, m,
          (t1 ++ [Log LError (ErrorVerifying key (message_of e))])%list)
    /\ verdicts (t1 ++ [Log LError (ErrorVerifying key (message_of e))])
       = [(key, ERROR)].
Proof.
  intros Hrefused.
  destruct (quiet_compare_entries w key packageObj npmDecompressedDestination
              githubDecompressedDestination ghResponse fileMap [] m)
    as [Hm [Hv Hr]].
  unfold module_of, events_of, result_of in Hm, Hv, Hr.
  destruct (compare_entries w key packageObj npmDecompressedDestination
              githubDecompressedDestination ghResponse fileMap [] m)
    as [[[differentFiles | e | h] m1] t1] eqn:E; cbn [fst snd] in *; subst m1.
  - rewrite (compare_entries_completed _ _ _ _ _ _ _ _ _ _ _ _ E) in Hrefused.
    discriminate Hrefused.
  - exists e, t1. split; [reflexivity|].
    split; [apply (compare_and_report_thrown _ _ _ _ _ _ _ _ _ _ _ _ E)|].
    now rewrite verdicts_app, Hv.
  - contradiction.
Qed.

Lemma refused_hash_hides_the_mismatches_witness :
  exists e t1,
    compare_entries unreadable_world "left-pad" left_pad npm_dir gh_dir gh_response
      [("/index.js", true); ("/test/test.js", true)] [] started
    = (Thrown e, started, t1)
    /\ compare_and_report unreadable_world "left-pad" left_pad npm_dir gh_dir
         gh_response [("/index.js", true); ("/test/test.js", true)] [] started
       = (Returned [], started,
          (t1 ++ [Log LError (ErrorVerifying "left-pad" (message_of e))])%list)
    /\ verdicts (t1 ++ [Log LError (ErrorVerifying "left-pad" (message_of e))])
       = [("left-pad", ERROR)].
Proof.
  exact (refused_hash_hides_the_mismatches unreadable_world "left-pad" left_pad
           npm_dir gh_dir gh_response
           [("/index.js", true); ("/test/test.js", true)] [] started eq_refl).
Defined.

(** ** Downloads *)

Lemma first_char_not_2 (statusCode : N) :
  (300 <= statusCode <= 599)%N ->
  Js.first_char (Js.String_of_N statusCode) <> Some "2"%char.
Proof.
  intros H.
  assert (Hall : forallb
                   (fun k => match Js.first_char (Js.String_of_N (N.of_nat k)) with
                             | Some "2"%char => false
                             | _ => true
                             end) (seq 300 300) = true)
    by (vm_compute; reflexivity).
  rewrite forallb_forall in Hall.
  specialize (Hall (N.to_nat statusCode)).
  rewrite N2Nat.id in Hall.
  assert (Hin : In (N.to_nat statusCode) (seq 300 300)).
  { rewrite in_seq. lia. }
  specialize (Hall Hin). intros E. rewrite E in Hall. discriminate Hall.
Qed.

(** X5.  For a destination file that can be written and a response with an
    HTTP status from 100 to 599, [await downloadFile(url, fileName)] logs
    the start of the download and sends the request; it then returns the
    destination path, after logging that the download has finished, when
    the status is from 200 to 299, throws an error whose message is the
    status in decimal, logging nothing more, when the status is from 300
    to 599, and never settles when the status is informational. *)
Theorem downloadFile_by_status (w : World) (url fileName : string) (m : Module)
    (statusCode : N) :
  let destinationPath := NodePath.resolve (cwd w) [TEMP_DIR m; fileName] in
  write_stream_error w destinationPath = None ->
  request_get w url = Response statusCode ->
  (100 <= statusCode <= 599)%N ->
  (promise <- downloadFile w url fileName ;; await promise) m
  = if (statusCode <? 200)%N
    then (Halted Hangs, m,
          [Log LDebug (DownloadingFile url); Get ViaRequestGet url])
    else if (statusCode <=? 299)%N
    then (Returned destinationPath, m,
          [Log LDebug (DownloadingFile url); Get ViaRequestGet url;
           Log LDebug (FinishedDownloading url)])
    else (Thrown (Error (Js.String_of_N statusCode)), m,
          [Log LDebug (DownloadingFile url); Get ViaRequestGet url]).
Proof.
  intros destinationPath Hw Hget Hrange.
  unfold bind, await. rewrite downloadFile_run. fold destinationPath.
  rewrite downloadFile_settles_run.
  unfold settle_events, download_outcome. rewrite Hw, Hget.
  destruct (statusCode <? 200)%N eqn:E1; [reflexivity|].
  apply N.ltb_ge in E1.
  destruct (statusCode <=? 299)%N eqn:E2.
  - apply N.leb_le in E2.
    now rewrite (first_char_2xx statusCode (conj E1 E2)).
  - apply N.leb_gt in E2.
    assert (Hnot : Js.first_char (Js.String_of_N statusCode) <> Some "2"%char)
      by (apply first_char_not_2; lia).
    destruct (Js.first_char (Js.String_of_N statusCode)) as [c|]; [|reflexivity].
    destruct c as [[] [] [] [] [] [] [] []]; try reflexivity. now elim Hnot.
Qed.

Lemma downloadFile_by_status_witness :
  (promise <- downloadFile (world equal_archives) plain_url
                "left-pad-1.3.0-gh.tar.gz" ;;
   await promise) started
  = (Thrown (Error "404"), started,
     [Log LDebug (DownloadingFile plain_url); Get ViaRequestGet plain_url]).
Proof.
  refine (downloadFile_by_status (world equal_archives) plain_url
            "left-pad-1.3.0-gh.tar.gz" started 404%N _ _ _);
    [vm_compute; reflexivity | vm_compute; reflexivity | lia].
Defined.

(** X6.  When the files of both candidates of the source archive can be
    written and both requests fail, both requests have been sent before
    either failure is known, the dependency gets the verdict [ERROR] and
    the registry tarball is never requested.  Which message is logged
    depends on the failure of the first candidate alone: the tarball
    message when its text contains [404], and otherwise the generic
    message, whose error text is [undefined], the array of failures having
    no [message]. *)
Theorem failed_source_download (w : World) (key : string)
    (packageObj : PackageObj) (dependenciesWithDifferences : list (string * nat))
    (m : Module) (packageInfo : PackageInfo) (githubUser : option string)
    (githubRepoName : string) (message1 : string) (e2 : Exn) :
  rp w (REGISTRY_BASE_URL m ++ "/" ++ key) = inr packageInfo ->
  github_coordinates w packageInfo = Some (githubUser, githubRepoName) ->
  let first := tarURL githubUser githubRepoName (version packageObj) in
  let second := alternativeURL githubUser githubRepoName (version packageObj) in
  let file1 := gh_file w m key (version packageObj) "-gh.tgz" in
  let file2 := gh_file w m key (version packageObj) "-gh.tar.gz" in
  write_stream_error w file1 = None ->
  write_stream_error w file2 = None ->
  failure w first = Some (Error message1) ->
  failure w second = Some e2 ->
  verify_dependency w key packageObj dependenciesWithDifferences m
  = (Returned dependenciesWithDifferences, m,
     ([Get ViaRp (REGISTRY_BASE_URL m ++ "/" ++ key);
       Log LInfo (StartingChecks key);
       Log LDebug (DownloadingFile first); Get ViaRequestGet first;
       Log LDebug (DownloadingFile second); Get ViaRequestGet second]
      ++ (if first_settles_first w first second
          then settle_events w first file1 ++ settle_events w second file2
          else settle_events w second file2 ++ settle_events w first file1)
      ++ [Log LError
            (if negb (String.eqb message1 "") && Js.includes "404" message1
             then TarballNotDownloaded key
             else ErrorProcessing key "undefined")])%list).
Proof.
  intros Hrp Hc first second file1 file2 Hw1 Hw2 H1 H2.
  unfold verify_dependency.
  rewrite (getPackageInfoFromRegistry_served w key _ m packageInfo Hrp).
  unfold try_catch. unfold bind at 1. unfold logger_info at 1, emit at 1.
  unfold bind at 1.
  rewrite (downloadCompressedFileFromGitHub_run w key (version packageObj)
             packageInfo m githubUser githubRepoName Hc Hw1 Hw2).
  fold first second file1 file2.
  rewrite (download_outcome_writable w first file1 Hw1),
    (download_outcome_writable w second file2 Hw2), H1, H2.
  cbn [any_of archive_of].
  unfold bind, on_dependency_error, logger_error, emit, ret.
  cbn [message_of Js.truthy Js.template]. unfold race_events, start_events.
  destruct (negb (message1 =? "")%string && Js.includes "404" message1);
    cbn [app]; now rewrite <- ?app_assoc, ?app_nil_r.
Qed.

Lemma failed_source_download_witness :
  verify_dependency (world server_error) "left-pad" left_pad [] started
  = (Returned [], started,
     [Get ViaRp "https://registry.npmjs.org/left-pad";
      Log LInfo (StartingChecks "left-pad");
      Log LDebug (DownloadingFile v_url); Get ViaRequestGet v_url;
      Log LDebug (DownloadingFile plain_url); Get ViaRequestGet plain_url;
      Log LError (ErrorProcessing "left-pad" "undefined")]).
Proof.
  refine (failed_source_download (world server_error) "left-pad" left_pad []
            started left_pad_info (Some "stevemao") "left-pad" "500" (Error "404")
            _ _ _ _ _ _); vm_compute; reflexivity.
Defined.

(** ** The file map and the files that are hashed *)

(** X9.  For a destination that is a clean path, as every path that
    [path.resolve] gives is, the root directory apart ([resolve_clean]),
    and a tree of plain names: the registry-side path that the
    comparison loop hashes for a key of the file map is the path of a file
    that the walk found, and every file that the walk found is hashed
    through some key: removing the root and putting it back is a round
    trip. *)
Theorem hashed_paths_are_the_walked_files (w : World)
    (npmDecompressedDestination : string) (nodes : list Node) (m : Module) :
  NodePath.clean npmDecompressedDestination = true ->
  forallb plain_tree nodes = true ->
  tree w (npmDecompressedDestination ++ "/package") = inr nodes ->
  exists fileMap,
    getFileMap w (npmDecompressedDestination ++ "/package") m
    = (Returned fileMap, m, [])
    /\ forall file,
         In file (find_file ".js" (npmDecompressedDestination ++ "/package") nodes)
         <-> exists mapKey,
               In mapKey (map fst fileMap)
               /\ npmFilePath npmDecompressedDestination mapKey = file.
Proof.
  intros Hclean Hplain H.
  assert (Hroot : NodePath.clean (npmDecompressedDestination ++ "/package") = true)
    by (now apply join_clean).
  eexists. split; [apply (getFileMap_returns _ _ _ _ H Hroot Hplain)|].
  destruct (assigned_keys (flat_map (relative_paths ".js" "") nodes) [])
    as [Hin _].
  intros file. rewrite (find_file_relative _ _ Hroot Hplain), in_map_iff.
  unfold npmFilePath.
  split.
  - intros [rel [<- Hrel]]. exists rel. split; [|now rewrite append_assoc].
    apply Hin. now right.
  - intros [mapKey [Hk <-]]. exists mapKey. split; [now rewrite append_assoc|].
    apply Hin in Hk. destruct Hk as [[] | Hk]. exact Hk.
Qed.

Lemma hashed_paths_are_the_walked_files_witness :
  exists fileMap,
    getFileMap (world equal_archives) (npm_dir ++ "/package") started
    = (Returned fileMap, started, [])
    /\ forall file,
         In file (find_file ".js" (npm_dir ++ "/package") left_pad_tree)
         <-> exists mapKey,
               In mapKey (map fst fileMap) /\ npmFilePath npm_dir mapKey = file.
Proof.
  apply (hashed_paths_are_the_walked_files (world equal_archives) npm_dir
           left_pad_tree started); vm_compute; reflexivity.
Defined.

(** ** What a call of [verify] does to the module and whom it contacts *)

(** X10.  Whatever its arguments and its outcome, a call of [verify] leaves
    [TEMP_DIR] set from its argument, [REGISTRY_BASE_URL] set to its
    registry URL when that is a non-empty string and untouched otherwise,
    and [logger] set for the level asked for ([debug] when none is given)
    when [pino] accepts that level and untouched when it refuses it; and
    every request it makes goes to that registry base URL or to
    [https://github.com/]. *)
Theorem verify_assigns_and_contacts (w : World) (lockfilePath : string)
    (logLevel : option string) (tempDirectory : string)
    (registryUrl : option string) (m0 : Module) :
  let level :=
    match logLevel with
    | Some l => if String.eqb l "" then "debug" else l
    | None => "debug"
    end in
  module_of (verify w lockfilePath logLevel tempDirectory registryUrl m0)
  = {| REGISTRY_BASE_URL :=
         match registryUrl with
         | Some u => if String.eqb u "" then REGISTRY_BASE_URL m0 else u
         | None => REGISTRY_BASE_URL m0
         end;
       TEMP_DIR := tempDirectory;
       logger :=
         match pino w level with
         | None => level
         | Some _ => logger m0
         end |}
  /\ Forall
       (addressed_to
          (REGISTRY_BASE_URL
             (module_of (verify w lockfilePath logLevel tempDirectory
                           registryUrl m0))))
       (events_of (verify w lockfilePath logLevel tempDirectory registryUrl m0)).
Proof.
  intros level.
  assert (Hlevel : level_of logLevel = level).
  { unfold level_of, level, Js.truthy, Js.template.
    destruct logLevel as [l|]; [|reflexivity]. now destruct (String.eqb l ""). }
  rewrite (verify_module w). split.
  - unfold configured. rewrite Hlevel. unfold Js.truthy, Js.template.
    destruct registryUrl as [u|]; try destruct (String.eqb u ""); reflexivity.
  - rewrite verify_configured.
    destruct (pino w (level_of logLevel)) as [e|]; [constructor|].
    apply respects_check_lockfile.
Qed.

(** X11.  A call of [verify] whose level [pino] refuses is rejected with
    the error of [pino] before the lock file is read; one whose lock file
    cannot be loaded, or holds no [dependencies], is rejected before any
    request is made or anything is logged, the module-level variables
    being assigned already; with an empty [dependencies] it is fulfilled
    after the one logger call that says that no differences were found. *)
Theorem verify_without_dependencies (w : World) (lockfilePath : string)
    (logLevel : option string) (tempDirectory : string)
    (registryUrl : option string) (m0 : Module) :
  let after := configured w logLevel tempDirectory registryUrl m0 in
  match pino w (level_of logLevel) with
  | Some e =>
      verify w lockfilePath logLevel tempDirectory registryUrl m0
      = (Thrown e, after, [])
  | None =>
      match require_lockfile w (NodePath.resolve (cwd w) [lockfilePath]) with
      | inl e =>
          verify w lockfilePath logLevel tempDirectory registryUrl m0
          = (Thrown e, after, [])
      | inr lockfile =>
          match dependencies lockfile with
          | None =>
              verify w lockfilePath logLevel tempDirectory registryUrl m0
              = (Thrown (TypeError "Cannot convert undefined or null to object"),
                 after, [])
          | Some [] =>
              verify w lockfilePath logLevel tempDirectory registryUrl m0
              = (Returned tt, after, [Log LInfo FinishedNoDifferences])
          | Some (_ :: _) => True
          end
      end
  end.
Proof.
  intros after. rewrite verify_configured. fold after.
  destruct (pino w (level_of logLevel)) as [e|]; [reflexivity|].
  unfold check_lockfile, bind, settle.
  destruct (require_lockfile w _) as [e | lockfile]; [reflexivity|].
  cbn [ret]. destruct (dependencies lockfile) as [[|entry entries]|];
    [reflexivity | exact I | reflexivity].
Qed.

(** X12.  When the registry rejects the metadata request of an entry, the
    entries before it having their metadata requests answered and their
    downloads settling, the loop over the lock file throws that rejection:
    the entries before it have been given their verdicts, and what the
    loop has done does not depend on the entries after it, none of which
    is looked at. *)
Theorem metadata_rejection_truncates_the_run (w : World)
    (earlier : list (string * PackageObj)) (key : string) (packageObj : PackageObj)
    (dependenciesWithDifferences : list (string * nat)) (m : Module) (e : Exn) :
  no_empty_rejection w ->
  answered w ->
  writable w m earlier ->
  metadata_served w m earlier ->
  rp w (REGISTRY_BASE_URL m ++ "/" ++ key) = inl e ->
  exists t,
    map fst (verdicts t) = map fst earlier
    /\ forall later,
         verify_entries w (earlier ++ (key, packageObj) :: later)
           dependenciesWithDifferences m
         = (Thrown e, m,
            (t ++ [Get ViaRp (REGISTRY_BASE_URL m ++ "/" ++ key)])%list).
Proof.
  intros Hw Hanswered Hfiles Hserved Hrp. revert dependenciesWithDifferences.
  induction earlier as [|[key1 packageObj1] earlier IH]; intros dwd.
  - exists []. split; [reflexivity|]. intros later.
    apply (metadata_rejection_leaves_the_loop w key packageObj later dwd m e Hrp).
  - inversion Hserved as [|? ? [packageInfo Hrp1] Hrest]; subst.
    inversion Hfiles as [|? ? Hfile Hfiles']; subst.
    destruct (verify_dependency_settles w key1 packageObj1 dwd m packageInfo
                Hw Hanswered Hfile Hrp1)
      as [after1 [t1 [st [Hdep [Hv1 _]]]]].
    destruct (IH Hfiles' Hrest after1) as [t [Hkeys Hloop]].
    exists (t1 ++ t)%list. split.
    + rewrite verdicts_app, Hv1. cbn [app map fst]. now rewrite Hkeys.
    + intros later. cbn [app verify_entries]. unfold bind.
      rewrite Hdep, (Hloop later). now rewrite app_assoc.
Qed.

Lemma no_release_then_unknown_served :
  metadata_served (world no_release) started
    [("right-pad", {| version := Some "0.1.0" |})].
Proof.
  repeat constructor; eexists; vm_compute; reflexivity.
Defined.

Lemma no_release_then_unknown_writable :
  writable (world no_release) started
    [("right-pad", {| version := Some "0.1.0" |})].
Proof.
  repeat constructor; vm_compute; reflexivity.
Defined.

Lemma metadata_rejection_truncates_the_run_witness :
  exists t,
    map fst (verdicts t) = map fst [("right-pad", {| version := Some "0.1.0" |})]
    /\ forall later,
         verify_entries (world no_release)
           ([("right-pad", {| version := Some "0.1.0" |})]
            ++ ("no-such-package", {| version := Some "1.0.0" |}) :: later)
           [] started
         = (Thrown (Error "404 - Not Found"), started,
            (t ++ [Get ViaRp (REGISTRY_BASE_URL started ++ "/"
                              ++ "no-such-package")])%list).
Proof.
  refine (metadata_rejection_truncates_the_run (world no_release)
            [("right-pad", {| version := Some "0.1.0" |})] "no-such-package"
            {| version := Some "1.0.0" |} [] started (Error "404 - Not Found")
            (scenario_no_empty_rejection no_release)
            (scenario_answered no_release eq_refl)
            no_release_then_unknown_writable
            no_release_then_unknown_served _).
  vm_compute; reflexivity.
Defined.
